(** * The HTTP tunnel servlet of guac (httpTunnelServer.go)

    A shallow embedding of the request dispatcher, the connect handler, the
    long-poll read loop and the write relay, followed by the properties of
    the natural-language specification that concern them.

    The servlet talks to four collaborators that are declared in other
    files: the tunnel registry ([HttpTunnelMap]), the tunnel with its
    instruction reader and writer, the HTTP response writer and the logger.
    Every call on a collaborator is recorded, in program order, in a trace of
    events; the answers of the collaborators are inputs of the model. *)

From Stdlib Require Import Strings.String Strings.Ascii Strings.Byte Lists.List Arith Lia Bool DecimalString.
From stdpp Require Import gmap strings list fin_maps.

Set Warnings "-clear-no-such-hyp".

Open Scope string_scope.

(** ** Constants *)

Definition ReadPrefix : string := "read:".
Definition WritePrefix : string := "write:".
Definition ReadPrefixLength : nat := String.length ReadPrefix.
Definition WritePrefixLength : nat := String.length WritePrefix.
Definition UuidLength : nat := 36.

(** Go byte slices, and the conversion [[]byte(s)]. *)
Abbreviation bytes := (list byte).

Definition bytes_of (s : string) : bytes := list_byte_of_string s.

(** The end-of-instructions marker, [[]byte("0.;")]. *)
Definition sentinel : bytes := bytes_of "0.;".

(** The slice expression [s[lo:hi]] of Go: it panics (here: [None]) unless
    [lo <= hi <= len(s)]. *)
Definition slice (s : string) (lo hi : nat) : option string :=
  if ((lo <=? hi)%nat && (hi <=? String.length s)%nat)%bool
  then Some (String.substring lo (hi - lo) s)
  else None.

(** [strings.HasPrefix(s, p)] *)
Definition HasPrefix (s p : string) : bool := String.prefix p s.

(** ** Errors *)

(** Modelled from the spec: the error kinds (type [ErrType], declared in
    another file of the package) are the rows of the table of section 7:
    client error, not-found, connection-closed, server error and other. *)
Inductive ErrType :=
| ErrClient
| ErrResourceNotFound
| ErrConnectionClosed
| ErrServer
| ErrOther.

Global Instance ErrType_eq_dec : EqDecision ErrType.
Proof. solve_decision. Defined.

(** The tagged error [*ErrGuac]: a message with its kind.  (The [Status]
    field of the Go struct is a function of the kind; see [Section Render].) *)
Record ErrGuac := { Kind : ErrType; Msg : string }.

(** A Go value of interface type [error] that is not nil: either the tagged
    [*ErrGuac] or an error of any other dynamic type. *)
Inductive error :=
| Tagged (g : ErrGuac)
| Untagged (msg : string).

(** [err.Error()] *)
Definition Error (e : error) : string :=
  match e with
  | Tagged g => Msg g
  | Untagged m => m
  end.

(** Modelled from the spec: [ErrType.NewError(args...)] (declared with
    [ErrType]) builds the tagged error of the given kind; the message joins
    the arguments. *)
Definition NewError (k : ErrType) (args : list string) : error :=
  Tagged {| Kind := k; Msg := String.concat ", " args |}.

(** ** Collaborators *)

(** Modelled from the spec: the instruction source (type [InstructionReader],
    declared in another file) answers [ReadSome] with bytes, possibly none,
    or fails, a failure being a kinded error and connection-closed the kind
    of a source that ended (sections 6 and 7).

    A [Pull] is what the reader and the tunnel answer during one iteration of
    the read loop: the result [(message, err)] of the call of [ReadSome] that
    starts the iteration, then the answers of [reader.Available()] and of
    [tunnel.HasQueuedReaderThreads()], each of which the loop body calls at
    most once. *)
Record Pull := {
  message : bytes;
  failure : option ErrGuac;
  available : bool;
  queued : bool
}.

(** Modelled from the spec: a tunnel (interface [Tunnel], declared in another
    file; section 6 lists its operations), described by its identity and by
    what it is going to answer:
    - [reads]: the successive results of its instruction reader; once the
      list is used up the next [ReadSome] does not return;
    - [accepts]: [None] when its writer takes every byte, [Some (n, e)] when
      it fails with [e] after [n] bytes;
    - [Close_result]: what [Close()] returns. *)
Record Tunnel := {
  GetUUID : string;
  reads : list Pull;
  accepts : option (nat * error);
  Close_result : option error
}.

(** The part of [*http.Request] that the servlet reads: the raw query and the
    body, which delivers [Body] and then ends, with [Body_err] if reading
    fails. *)
Record Request := {
  RawQuery : string;
  Body : bytes;
  Body_err : option error
}.

(** An [http.ResponseWriter]: whether it also implements [http.Flusher], and
    the error, if any, of its n-th call of [Write] (counted from 0). *)
Record ResponseWriter := {
  flusher : bool;
  Write_result : nat -> option string
}.

(** The servlet struct.  Its field [tunnels] refers to the registry, whose
    content is part of the mutable state below. *)
Record HttpTunnelServlet := {
  connect : Request -> Tunnel + error
}.

Inductive Level := DebugLevel | WarnLevel | ErrorLevel.

(** The calls on collaborators, with their answers. *)
Inductive Event :=
| EvPut (k : string)
| EvRemove (k : string)
| EvLog (l : Level) (msg : string)
| EvSetHeader (k v : string)
| EvWriteHeader (code : nat)
| EvWrite (p : bytes) (r : option string)
| EvFlush
| EvAcquireReader (u : string)
| EvReleaseReader (u : string)
| EvAcquireWriter (u : string)
| EvReleaseWriter (u : string)
| EvReadSome (m : bytes) (e : option ErrGuac)
| EvAvailable (b : bool)
| EvHasQueuedReaderThreads (b : bool)
| EvCopy (u : string) (p : bytes) (r : option error)
| EvClose (u : string) (r : option error).

(** ** State and control *)

(** The registry content, the trace so far and the number of calls of
    [Write] on the response so far. *)
Record State := {
  tunnels : gmap string Tunnel;
  trace : list Event;
  nwrites : nat
}.

(** How a piece of code ends: it returns a value, it panics, or it waits
    forever on a collaborator. *)
Inductive Outcome (A : Type) :=
| Returned (a : A)
| Panic
| Blocked.
Arguments Returned {A} a.
Arguments Panic {A}.
Arguments Blocked {A}.

Definition Act (A : Type) : Type := State -> Outcome A * State.

Definition ret {A} (a : A) : Act A := fun st => (Returned a, st).

Definition bind {A B} (m : Act A) (k : A -> Act B) : Act B :=
  fun st =>
    match m st with
    | (Returned a, st1) => k a st1
    | (Panic, st1) => (Panic, st1)
    | (Blocked, st1) => (Blocked, st1)
    end.

Definition panic {A} : Act A := fun st => (Panic, st).
Definition block {A} : Act A := fun st => (Blocked, st).

Declare Scope act_scope.
Delimit Scope act_scope with act.
Notation "x <- m ;; k" := (bind m (fun x => k))
  (at level 63, m at next level, right associativity) : act_scope.
Notation "m ;;; k" := (bind m (fun _ => k))
  (at level 63, right associativity) : act_scope.
Open Scope act_scope.

(** [defer cleanup] followed by [body]: the deferred call runs when the body
    returns and when it panics, and the outcome is that of the body. *)
Definition defer {A} (cleanup : Act unit) (body : Act A) : Act A :=
  fun st =>
    match body st with
    | (Blocked, st1) => (Blocked, st1)
    | (o, st1) => (o, snd (cleanup st1))
    end.

Definition emit (e : Event) : Act unit :=
  fun st => (Returned tt,
             {| tunnels := tunnels st; trace := trace st ++ [e]; nwrites := nwrites st |}).

(** ** The collaborators' operations *)

Definition quote : string := String (ascii_of_nat 34) EmptyString.

Definition Log (l : Level) (msg : string) : Act unit := emit (EvLog l msg).

(** Modelled from the spec: the registry (type [HttpTunnelMap], declared in
    another file) with the contract of section 4.1: [Put] overwrites, [Get]
    finds the tunnel or not, [Remove] is idempotent. *)
Definition Put (k : string) (t : Tunnel) : Act unit :=
  fun st => (Returned tt,
             {| tunnels := <[k := t]> (tunnels st);
                trace := trace st ++ [EvPut k]; nwrites := nwrites st |}).

Definition Remove (k : string) : Act unit :=
  fun st => (Returned tt,
             {| tunnels := delete k (tunnels st);
                trace := trace st ++ [EvRemove k]; nwrites := nwrites st |}).

Definition Get (k : string) : Act (option Tunnel) :=
  fun st => (Returned (tunnels st !! k), st).

(** [response.Header().Set(k, v)], [response.WriteHeader(code)] *)
Definition SetHeader (k v : string) : Act unit := emit (EvSetHeader k v).
Definition WriteHeader (code : nat) : Act unit := emit (EvWriteHeader code).

(** [response.Write(p)]: returns the error of the call. *)
Definition Write (response : ResponseWriter) (p : bytes) : Act (option string) :=
  fun st =>
    let r := Write_result response (nwrites st) in
    (Returned r,
     {| tunnels := tunnels st; trace := trace st ++ [EvWrite p r];
        nwrites := S (nwrites st) |}).

(** [if v, ok := response.(http.Flusher); ok { v.Flush() }] *)
Definition Flush (response : ResponseWriter) : Act unit :=
  if flusher response then emit EvFlush else ret tt.

Definition AcquireReader (t : Tunnel) : Act (list Pull) :=
  emit (EvAcquireReader (GetUUID t)) ;;; ret (reads t).
Definition ReleaseReader (t : Tunnel) : Act unit := emit (EvReleaseReader (GetUUID t)).
Definition AcquireWriter (t : Tunnel) : Act (option (nat * error)) :=
  emit (EvAcquireWriter (GetUUID t)) ;;; ret (accepts t).
Definition ReleaseWriter (t : Tunnel) : Act unit := emit (EvReleaseWriter (GetUUID t)).

(** [tunnel.Close()] *)
Definition Close (t : Tunnel) : Act (option error) :=
  emit (EvClose (GetUUID t) (Close_result t)) ;;; ret (Close_result t).

(** [reader.ReadSome()]: the next result and the rest of the reader. *)
Definition ReadSome (reader : list Pull) : Act (Pull * list Pull) :=
  match reader with
  | [] => block
  | p :: rest => emit (EvReadSome (message p) (failure p)) ;;; ret (p, rest)
  end.

(** [io.Copy(writer, request.Body)]: the bytes that reached the writer and
    the first error met, of the writer or of the body. *)
Definition io_Copy (writer : option (nat * error)) (request : Request)
  : bytes * option error :=
  match writer with
  | Some (n, e) =>
      if (n <? length (Body request))%nat
      then (take n (Body request), Some e)
      else (Body request, Body_err request)
  | None => (Body request, Body_err request)
  end.

(** The type assertion of [err] to the tagged error type, which panics on
    any other dynamic type. *)
Definition assertErrGuac (e : error) : Act ErrGuac :=
  match e with
  | Tagged g => ret g
  | Untagged _ => panic
  end.

(** ** The servlet *)

Definition registerTunnel (tunnel : Tunnel) : Act unit :=
  Put (GetUUID tunnel) tunnel ;;;
  Log DebugLevel ("Registered tunnel " ++ quote ++ GetUUID tunnel ++ quote ++ ".").

Definition deregisterTunnel (tunnel : Tunnel) : Act unit :=
  Remove (GetUUID tunnel) ;;;
  Log DebugLevel ("Deregistered tunnel " ++ quote ++ GetUUID tunnel ++ quote ++ ".").

Definition getTunnel (tunnelUUID : string) : Act (Tunnel + error) :=
  r <- Get tunnelUUID ;;
  match r with
  | Some t => ret (inl t)
  | None => ret (inr (NewError ErrResourceNotFound ["No such tunnel."]))
  end.

(** How the [for] loop of [stream] is left: by a [return] in its body, by
    its [break], or because its condition is false, [err] then being the
    error of the last [ReadSome]. *)
Inductive LoopExit :=
| LoopReturn (err : error)
| LoopBreak
| LoopCond (err : option ErrGuac).

(** The loop [for ; len(message) > 0; message, err = reader.ReadSome()] of
    [stream], entered with the result [cur] of the latest [ReadSome] and the
    rest of the reader. *)
Fixpoint stream_for (response : ResponseWriter) (cur : Pull) (rest : list Pull)
  {struct rest} : Act LoopExit :=
  if (0 <? length (message cur))%nat then
    match failure cur with
    | Some g => ret (LoopReturn (Tagged g))
    | None =>
        e <- Write response (message cur) ;;
        match e with
        | Some m => ret (LoopReturn (NewError ErrOther [m]))
        | None =>
            emit (EvAvailable (available cur)) ;;;
            (if available cur then ret tt else Flush response) ;;;
            emit (EvHasQueuedReaderThreads (queued cur)) ;;;
            if queued cur then ret LoopBreak
            else
              match rest with
              | [] => block
              | next :: rest' =>
                  emit (EvReadSome (message next) (failure next)) ;;;
                  stream_for response next rest'
              end
        end
    end
  else ret (LoopCond (failure cur)).

(** The end of [stream], after the loop, [err] being the error the loop was
    left with. *)
Definition stream_end (response : ResponseWriter) (tunnel : Tunnel)
  (err : option ErrGuac) : Act (option error) :=
  (match err with
   | Some _ => deregisterTunnel tunnel ;;; Close tunnel ;;; ret tt
   | None => ret tt
   end) ;;;
  e <- Write response sentinel ;;
  match e with
  | Some m => ret (Some (Untagged m))
  | None => Flush response ;;; ret None
  end.

Definition stream (response : ResponseWriter) (reader : list Pull) (tunnel : Tunnel)
  : Act (option error) :=
  first <- ReadSome reader ;;
  match failure (fst first) with
  | Some g => ret (Some (Tagged g))
  | None =>
      x <- stream_for response (fst first) (snd first) ;;
      match x with
      | LoopReturn err => ret (Some err)
      | LoopBreak => stream_end response tunnel None
      | LoopCond err => stream_end response tunnel err
      end
  end.

Definition doRead (response : ResponseWriter) (request : Request) (tunnelUUID : string)
  : Act (option error) :=
  r <- getTunnel tunnelUUID ;;
  match r with
  | inr err => ret (Some err)
  | inl tunnel =>
      reader <- AcquireReader tunnel ;;
      defer (ReleaseReader tunnel)
        (SetHeader "Content-Type" "application/octet-stream" ;;;
         SetHeader "Cache-Control" "no-cache" ;;;
         Flush response ;;;
         err <- stream response reader tunnel ;;
         match err with
         | None => ret None
         | Some e =>
             g <- assertErrGuac e ;;
             match Kind g with
             | ErrConnectionClosed =>
                 deregisterTunnel tunnel ;;;
                 Close tunnel ;;;
                 Write response sentinel ;;;
                 Flush response ;;;
                 ret (Some e)
             | _ =>
                 Log DebugLevel ("Error writing to servlet output stream" ++ Error e) ;;;
                 deregisterTunnel tunnel ;;;
                 Close tunnel ;;;
                 ret (Some e)
             end
         end)
  end.

Definition doWrite (response : ResponseWriter) (request : Request) (tunnelUUID : string)
  : Act (option error) :=
  r <- getTunnel tunnelUUID ;;
  match r with
  | inr err => ret (Some err)
  | inl tunnel =>
      SetHeader "Content-Type" "application/octet-stream" ;;;
      SetHeader "Cache-Control" "no-cache" ;;;
      SetHeader "Content-Length" "0" ;;;
      writer <- AcquireWriter tunnel ;;
      defer (ReleaseWriter tunnel)
        (let copied := io_Copy writer request in
         emit (EvCopy (GetUUID tunnel) (fst copied) (snd copied)) ;;;
         match snd copied with
         | Some _ =>
             deregisterTunnel tunnel ;;;
             err <- Close tunnel ;;
             match err with
             | Some _ => Log DebugLevel "Error closing tunnel" ;;; ret err
             | None => ret err
             end
         | None => ret None
         end)
  end.

Definition handleTunnelRequestCore (s : HttpTunnelServlet)
  (response : ResponseWriter) (request : Request) : Act (option error) :=
  let query := RawQuery request in
  if (String.length query =? 0)%nat then
    ret (Some (NewError ErrClient ["No query string provided."]))
  else if String.eqb query "connect" then
    match connect s request with
    | inr e => ret (Some (NewError ErrResourceNotFound ["No tunnel created."; Error e]))
    | inl tunnel =>
        registerTunnel tunnel ;;;
        SetHeader "Cache-Control" "no-cache" ;;;
        e <- Write response (bytes_of (GetUUID tunnel)) ;;
        match e with
        | Some m => ret (Some (NewError ErrServer [m]))
        | None => ret None
        end
    end
  else if HasPrefix query ReadPrefix then
    match slice query ReadPrefixLength (ReadPrefixLength + UuidLength) with
    | Some id => doRead response request id
    | None => panic
    end
  else if HasPrefix query WritePrefix then
    match slice query WritePrefixLength (WritePrefixLength + UuidLength) with
    | Some id => doWrite response request id
    | None => panic
    end
  else ret (Some (NewError ErrClient ["Invalid tunnel operation: " ++ query])).

(** ** Rendering of errors *)

Section Render.

(** The status of an error kind (type [Status] and the table from kinds to
    statuses are declared elsewhere): its Guacamole status code and its
    HTTP status code. *)
Variable GetGuacamoleStatusCode : ErrType -> nat.
Variable GetHTTPStatusCode : ErrType -> nat.

(** [fmt.Sprintf("%v", n)] *)
Definition Sprintf_v (n : nat) : string := NilZero.string_of_uint (Nat.to_uint n).

Definition sendError (guacStatus : ErrType) (msg : string) : Act unit :=
  SetHeader "Guacamole-Status-Code" (Sprintf_v (GetGuacamoleStatusCode guacStatus)) ;;;
  SetHeader "Guacamole-Error-Message" msg ;;;
  WriteHeader (GetHTTPStatusCode guacStatus).

Definition ServeHTTP (s : HttpTunnelServlet) (w : ResponseWriter) (r : Request)
  : Act unit :=
  err <- handleTunnelRequestCore s w r ;;
  match err with
  | None => ret tt
  | Some e =>
      guacErr <- assertErrGuac e ;;
      match Kind guacErr with
      | ErrClient =>
          Log WarnLevel ("HTTP tunnel request rejected: " ++ Error e) ;;;
          sendError (Kind guacErr) (Error e)
      | _ =>
          Log ErrorLevel ("HTTP tunnel request failed: " ++ Error e) ;;;
          Log DebugLevel ("Internal error in HTTP tunnel." ++ Error e) ;;;
          sendError (Kind guacErr) "Internal server error."
      end
  end.

End Render.

Close Scope string_scope.

(** ** Observations on traces *)

(** The events of a run from [st] to [st']. *)
Definition since (st st' : State) : list Event :=
  drop (length (trace st)) (trace st').

(** The payloads of the calls of [Write] that succeeded, and the response
    body they make up. *)
Definition written (evs : list Event) : list bytes :=
  omap (fun e => match e with EvWrite p None => Some p | _ => None end) evs.

Definition body (evs : list Event) : bytes := concat (written evs).

(** The instruction batches the source delivered: the messages of the calls
    of [ReadSome] that are not empty. *)
Definition pulled (evs : list Event) : list bytes :=
  omap (fun e => match e with
                 | EvReadSome m _ => if (0 <? length m)%nat then Some m else None
                 | _ => None
                 end) evs.

(** Teardown events: the removal from the registry and the close. *)
Definition is_teardown (e : Event) : bool :=
  match e with
  | EvRemove _ | EvClose _ _ => true
  | _ => false
  end.

(** Failure events: a fetch or a write on the response that failed. *)
Definition is_io_failure (e : Event) : bool :=
  match e with
  | EvReadSome _ (Some _) | EvWrite _ (Some _) => true
  | _ => false
  end.

(** The events of [Flush], of [deregisterTunnel] followed by [Close], and of
    one iteration of the loop body that reaches its end. *)
Definition flush_events (response : ResponseWriter) : list Event :=
  if flusher response then [EvFlush] else [].

Definition teardown_events (t : Tunnel) : list Event :=
  [EvRemove (GetUUID t);
   EvLog DebugLevel ("Deregistered tunnel " ++ quote ++ GetUUID t ++ quote ++ ".")%string;
   EvClose (GetUUID t) (Close_result t)].

Definition body_events (response : ResponseWriter) (cur : Pull) : list Event :=
  [EvWrite (message cur) None; EvAvailable (available cur)]
  ++ (if available cur then [] else flush_events response)
  ++ [EvHasQueuedReaderThreads (queued cur)].

(** The runs of the loop of [stream]: the events of a run and how it ends. *)
Inductive loop_run (response : ResponseWriter)
  : Pull -> list Pull -> list Event -> Outcome LoopExit -> Prop :=
| run_cond cur rest :
    message cur = [] ->
    loop_run response cur rest [] (Returned (LoopCond (failure cur)))
| run_fetch_failed cur rest g :
    message cur <> [] -> failure cur = Some g ->
    loop_run response cur rest [] (Returned (LoopReturn (Tagged g)))
| run_write_failed cur rest m :
    message cur <> [] -> failure cur = None ->
    loop_run response cur rest [EvWrite (message cur) (Some m)]
      (Returned (LoopReturn (NewError ErrOther [m])))
| run_break cur rest :
    message cur <> [] -> failure cur = None -> queued cur = true ->
    loop_run response cur rest (body_events response cur) (Returned LoopBreak)
| run_blocked cur :
    message cur <> [] -> failure cur = None -> queued cur = false ->
    loop_run response cur [] (body_events response cur) Blocked
| run_next cur next rest evs o :
    message cur <> [] -> failure cur = None -> queued cur = false ->
    loop_run response next rest evs o ->
    loop_run response cur (next :: rest)
      (body_events response cur ++ EvReadSome (message next) (failure next) :: evs) o.

(** ** States and blocks of events *)

(** The state after a run that only adds events and calls of [Write]. *)
Definition after (evs : list Event) (w : nat) (st : State) : State :=
  {| tunnels := tunnels st; trace := trace st ++ evs; nwrites := nwrites st + w |}.

(** The state after [deregisterTunnel] followed by [Close]. *)
Definition torn (t : Tunnel) (st : State) : State :=
  {| tunnels := delete (GetUUID t) (tunnels st);
     trace := trace st ++ teardown_events t;
     nwrites := nwrites st |}.

(** The events of [doRead] before it calls [stream], and the line it logs
    for an error that is not of kind connection-closed. *)
Definition read_prologue (response : ResponseWriter) (t : Tunnel) : list Event :=
  [EvAcquireReader (GetUUID t);
   EvSetHeader "Content-Type" "application/octet-stream";
   EvSetHeader "Cache-Control" "no-cache"]%string
  ++ flush_events response.

Definition read_error_log (e : error) : Event :=
  EvLog DebugLevel ("Error writing to servlet output stream" ++ Error e)%string.

(** The events of [doWrite] up to the end of the copy. *)
Definition write_prologue (t : Tunnel) (request : Request) : list Event :=
  [EvSetHeader "Content-Type" "application/octet-stream";
   EvSetHeader "Cache-Control" "no-cache";
   EvSetHeader "Content-Length" "0";
   EvAcquireWriter (GetUUID t);
   EvCopy (GetUUID t) (fst (io_Copy (accepts t) request))
     (snd (io_Copy (accepts t) request))]%string.



(** The results of the calls of [ReadSome] in a trace, and in one event. *)
Definition fetched (evs : list Event) : list (bytes * option ErrGuac) :=
  omap (fun e => match e with EvReadSome m err => Some (m, err) | _ => None end) evs.

Definition fetched_of (e : Event) : list (bytes * option ErrGuac) :=
  match e with EvReadSome m err => [(m, err)] | _ => [] end.

(** ** Sample collaborators *)

(** A tunnel, a registry that holds just that tunnel, and the empty one. *)
Definition sample_uuid : string := "6fa459ea-ee8a-3ca4-894e-db77e160355e"%string.

Definition sample_tunnel (script : list Pull) (writer : option (nat * error))
  (closing : option error) : Tunnel :=
  {| GetUUID := sample_uuid; reads := script; accepts := writer;
     Close_result := closing |}.

Definition registered (t : Tunnel) : State :=
  {| tunnels := {[ GetUUID t := t ]}; trace := []; nwrites := 0 |}.

Definition empty_state : State := {| tunnels := ∅; trace := []; nwrites := 0 |}.

(** Response writers: one that flushes and never fails, one that cannot
    flush, one whose second write fails and one whose every write fails. *)
Definition sound_response : ResponseWriter :=
  {| flusher := true; Write_result := fun _ => None |}.

Definition plain_response : ResponseWriter :=
  {| flusher := false; Write_result := fun _ => None |}.

Definition failing_response : ResponseWriter :=
  {| flusher := true;
     Write_result := fun n => if (n =? 1)%nat then Some "broken pipe"%string else None |}.

Definition broken_response : ResponseWriter :=
  {| flusher := true; Write_result := fun _ => Some "broken pipe"%string |}.

(** Requests, results of the instruction reader and reader scripts. *)
Definition sample_request (query : string) : Request :=
  {| RawQuery := query; Body := bytes_of "4.sync,1.0;"%string; Body_err := None |}.

Definition batch (text : string) (more yield : bool) : Pull :=
  {| message := bytes_of text; failure := None; available := more; queued := yield |}.

Definition source_end (k : ErrType) : Pull :=
  {| message := []; failure := Some {| Kind := k; Msg := "source ended"%string |};
     available := false; queued := false |}.

Definition closed_error : ErrGuac :=
  {| Kind := ErrConnectionClosed; Msg := "source ended"%string |}.

Definition two_batches : list Pull :=
  [batch "4.sync,1.0;" true false; batch "3.nop;" false false; batch "" false false].

(** A writer that fails after four bytes, and a close that fails. *)
Definition stuck_writer : option (nat * error) :=
  Some (4, Untagged "connection reset by peer"%string).

Definition unclosable : option error :=
  Some (Untagged "use of closed network connection"%string).

(** Session establishment that fails, and that returns a given tunnel. *)
Definition refusing_servlet : HttpTunnelServlet :=
  {| connect := fun _ => inr (Untagged "guacd unreachable"%string) |}.

Definition accepting_servlet (t : Tunnel) : HttpTunnelServlet :=
  {| connect := fun _ => inl t |}.

(** A status table. *)
Definition no_status : ErrType -> nat := fun _ => 0.

(** ** The constructor and further observations *)

(** Modelled from the spec: [NewHttpTunnelMap()] (declared in another file)
    returns a registry without entries (section 9: initialized empty at
    startup).  [NewHTTPTunnelServlet] gives the servlet and the state it
    starts from. *)
Definition NewHTTPTunnelServlet (establish : Request -> Tunnel + error)
  : HttpTunnelServlet * State :=
  ({| connect := establish |}, {| tunnels := ∅; trace := []; nwrites := 0 |}).

(** Every tunnel of the registry is filed under its own identity. *)
Definition registry_ok (m : gmap string Tunnel) : Prop :=
  forall k t, m !! k = Some t -> GetUUID t = k.

(** The events of the read loop; the acquisitions and releases of a role;
    what reaches the client: body bytes, flushes and the status line. *)
Definition is_loop_event (e : Event) : bool :=
  match e with
  | EvWrite _ _ | EvAvailable _ | EvFlush | EvHasQueuedReaderThreads _
  | EvReadSome _ _ => true
  | _ => false
  end.

Definition is_role (e : Event) : bool :=
  match e with
  | EvAcquireReader _ | EvReleaseReader _ | EvAcquireWriter _
  | EvReleaseWriter _ => true
  | _ => false
  end.

Definition is_output (e : Event) : bool :=
  match e with
  | EvWrite _ _ | EvFlush | EvWriteHeader _ => true
  | _ => false
  end.

Definition is_log (e : Event) : bool :=
  match e with
  | EvLog _ _ => true
  | _ => false
  end.

(** The teardown events of a trace, in order. *)
Definition teardowns (evs : list Event) : list Event :=
  filter (fun e => is_teardown e = true) evs.

(** The state [doRead] ends in when [stream] returned the tagged error [g]
    in state [st2]. *)
Definition read_failed (response : ResponseWriter) (t : Tunnel) (g : ErrGuac)
  (st2 : State) : State :=
  if decide (Kind g = ErrConnectionClosed)
  then after (EvWrite sentinel (Write_result response (nwrites st2))
              :: flush_events response ++ [EvReleaseReader (GetUUID t)]) 1
         (torn t st2)
  else after [EvReleaseReader (GetUUID t)] 0
         (torn t (after [read_error_log (Tagged g)] 0 st2)).

(** The events of [ServeHTTP] after the dispatch core returned the tagged
    error [g]: the log lines, then the two headers and the status line. *)
Definition render_events (GetGuacamoleStatusCode GetHTTPStatusCode : ErrType -> nat)
  (g : ErrGuac) : list Event :=
  (if decide (Kind g = ErrClient)
   then [EvLog WarnLevel ("HTTP tunnel request rejected: " ++ Msg g)%string]
   else [EvLog ErrorLevel ("HTTP tunnel request failed: " ++ Msg g)%string;
         EvLog DebugLevel ("Internal error in HTTP tunnel." ++ Msg g)%string])
  ++ [EvSetHeader "Guacamole-Status-Code"%string
        (Sprintf_v (GetGuacamoleStatusCode (Kind g)));
      EvSetHeader "Guacamole-Error-Message"%string
        (if decide (Kind g = ErrClient) then Msg g
         else "Internal server error."%string);
      EvWriteHeader (GetHTTPStatusCode (Kind g))].

(** Whether, in a trace, every answer of [Available] that no further data
    is ready is followed at once by a flush. *)
Fixpoint flushed_when_idle (evs : list Event) : bool :=
  match evs with
  | [] => true
  | EvAvailable false :: rest =>
      match rest with
      | EvFlush :: _ => flushed_when_idle rest
      | _ => false
      end
  | _ :: rest => flushed_when_idle rest
  end.

(** A tunnel with a second identity, and a status table that tells the
    kinds apart. *)
Definition other_uuid : string := "16fd2706-8baf-433b-82eb-8c7fada847da"%string.

Definition other_tunnel : Tunnel :=
  {| GetUUID := other_uuid; reads := []; accepts := None; Close_result := None |}.

Definition http_status (k : ErrType) : nat :=
  match k with
  | ErrClient => 400
  | ErrResourceNotFound => 404
  | _ => 500
  end.

(** ** Basic facts *)

Lemma since_app st st' evs : trace st' = trace st ++ evs -> since st st' = evs.
Proof. intros E. unfold since. rewrite E. apply drop_app_length. Qed.

Lemma written_app evs1 evs2 : written (evs1 ++ evs2) = written evs1 ++ written evs2.
Proof. apply omap_app. Qed.

Lemma pulled_app evs1 evs2 : pulled (evs1 ++ evs2) = pulled evs1 ++ pulled evs2.
Proof. apply omap_app. Qed.

Lemma written_flush response : written (flush_events response) = [].
Proof. unfold flush_events. by destruct (flusher response). Qed.

Lemma pulled_flush response : pulled (flush_events response) = [].
Proof. unfold flush_events. by destruct (flusher response). Qed.

Lemma written_body_events response cur :
  written (body_events response cur) = [message cur].
Proof.
  unfold body_events. rewrite !written_app.
  destruct (available cur); simpl; by rewrite ?written_flush.
Qed.

Lemma pulled_body_events response cur : pulled (body_events response cur) = [].
Proof.
  unfold body_events. rewrite !pulled_app.
  destruct (available cur); simpl; by rewrite ?pulled_flush.
Qed.

Lemma nonempty_ltb (m : bytes) : (0 <? length m)%nat = true <-> m <> [].
Proof. destruct m; simpl; split; intros; congruence || done. Qed.

Lemma empty_ltb (m : bytes) : (0 <? length m)%nat = false <-> m = [].
Proof. destruct m; simpl; split; intros; congruence || done. Qed.

Lemma Flush_after response st :
  Flush response st = (Returned tt, after (flush_events response) 0 st).
Proof.
  unfold Flush, flush_events, after, emit, ret.
  destruct (flusher response), st; simpl; by rewrite ?app_nil_r, Nat.add_0_r.
Qed.

Lemma after_0 st : after [] 0 st = st.
Proof. unfold after. destruct st; simpl. by rewrite app_nil_r, Nat.add_0_r. Qed.

Lemma after_after evs1 w1 evs2 w2 st :
  after evs2 w2 (after evs1 w1 st) = after (evs1 ++ evs2) (w1 + w2) st.
Proof. unfold after; simpl. by rewrite app_assoc, Nat.add_assoc. Qed.

(** One iteration of the loop, with the state after its body spelled out. *)
Lemma stream_for_unfold response cur rest st :
  stream_for response cur rest st =
  if (0 <? length (message cur))%nat then
    match failure cur with
    | Some g => (Returned (LoopReturn (Tagged g)), st)
    | None =>
        match Write_result response (nwrites st) with
        | Some m => (Returned (LoopReturn (NewError ErrOther [m])),
                     after [EvWrite (message cur) (Some m)] 1 st)
        | None =>
            if queued cur
            then (Returned LoopBreak, after (body_events response cur) 1 st)
            else match rest with
                 | [] => (Blocked, after (body_events response cur) 1 st)
                 | next :: rest' =>
                     stream_for response next rest'
                       (after (body_events response cur
                               ++ [EvReadSome (message next) (failure next)]) 1 st)
                 end
        end
    end
  else (Returned (LoopCond (failure cur)), st).
Proof.
  destruct rest as [|next rest']; simpl.
  all: destruct (0 <? length (message cur))%nat; [|done].
  all: destruct (failure cur); [done|].
  all: unfold bind, Write, emit, body_events, flush_events, Flush, after, ret, block, emit.
  all: simpl; destruct (Write_result response (nwrites st)); simpl;
    [by rewrite Nat.add_1_r|].
  all: destruct (available cur), (flusher response), (queued cur); simpl.
  all: rewrite <- ?app_assoc, ?Nat.add_1_r; simpl; try done.
Qed.

(** The loop follows [loop_run]; it leaves the registry alone. *)
Lemma stream_for_run response rest : forall cur st o st',
  stream_for response cur rest st = (o, st') ->
  exists evs w, loop_run response cur rest evs o /\ st' = after evs w st.
Proof.
  induction rest as [|next rest IH]; intros cur st o st' H;
    rewrite stream_for_unfold in H.
  all: destruct (0 <? length (message cur))%nat eqn:Hlen;
    [apply nonempty_ltb in Hlen | apply empty_ltb in Hlen].
  all: try (injection H as <- <-; exists [], 0; rewrite after_0;
            split; [by constructor|done]).
  all: destruct (failure cur) as [g|] eqn:Hf.
  all: try (injection H as <- <-; exists [], 0; rewrite after_0;
            split; [by constructor|done]).
  all: destruct (Write_result response (nwrites st)) as [m|] eqn:Hw.
  all: try (injection H as <- <-; eexists _, 1; split; [by constructor|done]).
  all: destruct (queued cur) eqn:Hq.
  all: try (injection H as <- <-; eexists _, 1; split; [by constructor|done]).
  apply IH in H as (evs & w & Hrun & ->).
  eexists _, _. split; [by apply run_next|].
  rewrite after_after, <- app_assoc. done.
Qed.

Lemma teardown_torn t st :
  (deregisterTunnel t ;;; Close t) st = (Returned (Close_result t), torn t st).
Proof.
  unfold deregisterTunnel, Close, Remove, Log, bind, emit, ret, torn, teardown_events.
  simpl. by rewrite <- !app_assoc.
Qed.

Lemma stream_end_unfold response t err st :
  stream_end response t err st =
  let st1 := match err with Some _ => torn t st | None => st end in
  match Write_result response (nwrites st1) with
  | Some m => (Returned (Some (Untagged m)), after [EvWrite sentinel (Some m)] 1 st1)
  | None => (Returned None, after (EvWrite sentinel None :: flush_events response) 1 st1)
  end.
Proof.
  unfold stream_end, deregisterTunnel, Close, Remove, Log, Write, Flush, flush_events.
  unfold bind, emit, ret, torn, teardown_events, after.
  destruct err; simpl.
  all: destruct (Write_result response (nwrites st)); simpl;
    rewrite <- ?app_assoc, ?Nat.add_1_r; simpl; try done.
  all: destruct (flusher response); simpl; rewrite <- ?app_assoc; done.
Qed.

Lemma stream_unfold response reader t st :
  stream response reader t st =
  match reader with
  | [] => (Blocked, st)
  | p :: rest =>
      let st1 := after [EvReadSome (message p) (failure p)] 0 st in
      match failure p with
      | Some g => (Returned (Some (Tagged g)), st1)
      | None =>
          match stream_for response p rest st1 with
          | (Returned (LoopReturn err), st2) => (Returned (Some err), st2)
          | (Returned LoopBreak, st2) => stream_end response t None st2
          | (Returned (LoopCond err), st2) => stream_end response t err st2
          | (Panic, st2) => (Panic, st2)
          | (Blocked, st2) => (Blocked, st2)
          end
      end
  end.
Proof.
  destruct reader as [|p rest]; [done|].
  unfold stream, ReadSome, bind, emit, ret, after; simpl.
  rewrite Nat.add_0_r.
  destruct (failure p); [done|].
  destruct (stream_for _ _ _ _) as [[[]| |] st2]; done.
Qed.

Lemma doRead_unfold response request id t st :
  tunnels st !! id = Some t ->
  doRead response request id st =
  match stream response (reads t) t (after (read_prologue response t) 0 st) with
  | (Blocked, st2) => (Blocked, st2)
  | (Panic, st2) => (Panic, after [EvReleaseReader (GetUUID t)] 0 st2)
  | (Returned None, st2) => (Returned None, after [EvReleaseReader (GetUUID t)] 0 st2)
  | (Returned (Some (Untagged m)), st2) =>
      (Panic, after [EvReleaseReader (GetUUID t)] 0 st2)
  | (Returned (Some (Tagged g)), st2) =>
      (Returned (Some (Tagged g)),
       if decide (Kind g = ErrConnectionClosed)
       then after (EvWrite sentinel (Write_result response (nwrites st2))
                   :: flush_events response ++ [EvReleaseReader (GetUUID t)]) 1
              (torn t st2)
       else after [EvReleaseReader (GetUUID t)] 0
              (torn t (after [read_error_log (Tagged g)] 0 st2)))
  end.
Proof.
  intros Ht. unfold doRead, getTunnel, Get, bind at 1 2. simpl. rewrite Ht. simpl.
  unfold AcquireReader, bind at 1 2, emit at 1. simpl.
  unfold defer, SetHeader, bind at 1 2 3, emit at 1 2. simpl.
  rewrite Flush_after. unfold bind at 1.
  match goal with
  | |- context [stream response (reads t) t ?s] =>
      replace s with (after (read_prologue response t) 0 st)
  end.
  2:{ unfold after, read_prologue; simpl. rewrite <- !app_assoc, !Nat.add_0_r. done. }
  destruct (stream _ _ _ _) as [[[[g|m]|]| |] st2]; simpl.
  - unfold bind at 1. simpl.
    destruct g as [[] msg]; simpl.
    all: unfold deregisterTunnel, Close, Remove, Log, Write, Flush, flush_events,
           ReleaseReader, read_error_log.
    all: unfold bind, emit, ret, torn, teardown_events, after; simpl.
    all: destruct (flusher response); simpl.
    all: rewrite <- ?app_assoc, ?Nat.add_0_r, ?Nat.add_1_r; simpl; done.
  - unfold ReleaseReader, emit, after. simpl. by rewrite Nat.add_0_r.
  - unfold ReleaseReader, emit, after. simpl. by rewrite Nat.add_0_r.
  - unfold ReleaseReader, emit, after. simpl. by rewrite Nat.add_0_r.
  - done.
Qed.

(** ** Properties of the loop *)

Lemma flush_events_elem response e : e ∈ flush_events response -> e = EvFlush.
Proof.
  unfold flush_events. destruct (flusher response); intros H.
  - by apply list_elem_of_singleton in H.
  - by apply not_elem_of_nil in H.
Qed.

Lemma body_events_elem response cur e :
  e ∈ body_events response cur ->
  e = EvWrite (message cur) None \/ e = EvAvailable (available cur) \/
  e = EvFlush \/ e = EvHasQueuedReaderThreads (queued cur).
Proof.
  unfold body_events. rewrite !elem_of_app, !elem_of_cons.
  intros [[->| [->|H]] | [H|[->|H]]]; auto.
  - by apply not_elem_of_nil in H.
  - destruct (available cur); [by apply not_elem_of_nil in H|].
    apply flush_events_elem in H. auto.
  - by apply not_elem_of_nil in H.
Qed.

(** The loop never deregisters and never closes. *)
Lemma loop_no_teardown response cur rest evs o :
  loop_run response cur rest evs o -> forall e, e ∈ evs -> is_teardown e = false.
Proof.
  induction 1; intros e He.
  - by apply not_elem_of_nil in He.
  - by apply not_elem_of_nil in He.
  - by apply list_elem_of_singleton in He as ->.
  - apply body_events_elem in He as [->|[->|[->| ->]]]; done.
  - apply body_events_elem in He as [->|[->|[->| ->]]]; done.
  - apply elem_of_app in He as [He|He].
    + apply body_events_elem in He as [->|[->|[->| ->]]]; done.
    + apply elem_of_cons in He as [->|He]; [done|]. by apply IHloop_run.
Qed.

Lemma pulled_read m err evs :
  m <> [] -> pulled (EvReadSome m err :: evs) = m :: pulled evs.
Proof. intros Hm. unfold pulled; simpl. by apply nonempty_ltb in Hm as ->. Qed.

Lemma written_read m err evs : written (EvReadSome m err :: evs) = written evs.
Proof. done. Qed.

(** When the loop ends by its break or by its condition, what was written
    is what was pulled, the batch the loop was entered with included. *)
Lemma loop_written response cur rest evs o :
  loop_run response cur rest evs o ->
  o = Returned LoopBreak \/ (exists err, o = Returned (LoopCond err)) ->
  written evs = pulled (EvReadSome (message cur) (failure cur) :: evs).
Proof.
  induction 1 as [cur rest Hm|cur rest g Hm Hf|cur rest m Hm Hf|cur rest Hm Hf Hq
                 |cur Hm Hf Hq|cur next rest evs o Hm Hf Hq Hrun IH]; intros Ho.
  - by rewrite Hm.
  - destruct Ho as [?|[? ?]]; done.
  - destruct Ho as [?|[? ?]]; done.
  - by rewrite pulled_read, written_body_events, pulled_body_events.
  - destruct Ho as [?|[? ?]]; done.
  - rewrite pulled_read, written_app, pulled_app by done.
    by rewrite written_body_events, pulled_body_events, written_read, (IH Ho).
Qed.

(** A fetch that fails ends the loop: it is the last event of the run, and
    the loop is left with its error. *)
Lemma loop_fetch_failure response cur rest evs o :
  loop_run response cur rest evs o ->
  forall m g, EvReadSome m (Some g) ∈ EvReadSome (message cur) (failure cur) :: evs ->
  (exists pre, EvReadSome (message cur) (failure cur) :: evs
               = pre ++ [EvReadSome m (Some g)]) /\
  (o = Returned (LoopCond (Some g)) \/ o = Returned (LoopReturn (Tagged g))).
Proof.
  induction 1 as [cur rest Hm|cur rest g' Hm Hf|cur rest m' Hm Hf|cur rest Hm Hf Hq
                 |cur Hm Hf Hq|cur next rest evs o Hm Hf Hq Hrun IH]; intros m g He.
  - apply list_elem_of_singleton in He. injection He as Em Ef.
    rewrite <- Em, <- Ef. split; [by exists []|]. by left.
  - apply list_elem_of_singleton in He. injection He as Em Ef.
    rewrite <- Em, <- Ef. split; [by exists []|]. right. congruence.
  - rewrite Hf in He. apply elem_of_cons in He as [?|He]; [done|].
    by apply list_elem_of_singleton in He.
  - rewrite Hf in He. apply elem_of_cons in He as [?|He]; [done|].
    apply body_events_elem in He as [?|[?|[?|?]]]; done.
  - rewrite Hf in He. apply elem_of_cons in He as [?|He]; [done|].
    apply body_events_elem in He as [?|[?|[?|?]]]; done.
  - rewrite Hf in He. apply elem_of_cons in He as [?|He]; [done|].
    apply elem_of_app in He as [He|He].
    { apply body_events_elem in He as [?|[?|[?|?]]]; done. }
    destruct (IH m g He) as [[pre Hpre] Ho]. split; [|done].
    exists (EvReadSome (message cur) (failure cur) :: body_events response cur ++ pre).
    rewrite Hpre, app_comm_cons, app_assoc. reflexivity.
Qed.

(** The queued-readers signal ends the loop by its break. *)
Lemma loop_yield response cur rest evs o :
  loop_run response cur rest evs o ->
  EvHasQueuedReaderThreads true ∈ evs -> o = Returned LoopBreak.
Proof.
  induction 1 as [cur rest Hm|cur rest g' Hm Hf|cur rest m' Hm Hf|cur rest Hm Hf Hq
                 |cur Hm Hf Hq|cur next rest evs o Hm Hf Hq Hrun IH]; intros He.
  - by apply not_elem_of_nil in He.
  - by apply not_elem_of_nil in He.
  - by apply list_elem_of_singleton in He.
  - done.
  - apply body_events_elem in He as [?|[?|[?|?]]]; congruence.
  - apply elem_of_app in He as [He|He].
    + apply body_events_elem in He as [?|[?|[?|?]]]; congruence.
    + apply elem_of_cons in He as [?|He]; [done|]. by apply IH.
Qed.

(** The loop is left with an error only after a fetch or a write failed. *)
Lemma loop_error_cause response cur rest evs o :
  loop_run response cur rest evs o ->
  (exists err, o = Returned (LoopReturn err)) \/
  (exists g, o = Returned (LoopCond (Some g))) ->
  exists e, e ∈ EvReadSome (message cur) (failure cur) :: evs /\ is_io_failure e = true.
Proof.
  induction 1 as [cur rest Hm|cur rest g' Hm Hf|cur rest m' Hm Hf|cur rest Hm Hf Hq
                 |cur Hm Hf Hq|cur next rest evs o Hm Hf Hq Hrun IH]; intros Ho.
  - destruct Ho as [[? ?]|[g Hg]]; [done|]. injection Hg as Hg.
    exists (EvReadSome (message cur) (failure cur)). split; [by left|].
    by rewrite Hg.
  - exists (EvReadSome (message cur) (failure cur)). split; [by left|].
    by rewrite Hf.
  - eexists. split; [right; left|]. done.
  - destruct Ho as [[? ?]|[? ?]]; done.
  - destruct Ho as [[? ?]|[? ?]]; done.
  - destruct (IH Ho) as (e & He & Hio). exists e. split; [|done].
    right. apply elem_of_app. by right.
Qed.

(** ** Lookup failures *)

Lemma doRead_not_found response request id st :
  tunnels st !! id = None ->
  doRead response request id st
  = (Returned (Some (NewError ErrResourceNotFound ["No such tunnel."%string])), st).
Proof. intros H. unfold doRead, getTunnel, Get, bind. simpl. by rewrite H. Qed.

Lemma doWrite_not_found response request id st :
  tunnels st !! id = None ->
  doWrite response request id st
  = (Returned (Some (NewError ErrResourceNotFound ["No such tunnel."%string])), st).
Proof. intros H. unfold doWrite, getTunnel, Get, bind. simpl. by rewrite H. Qed.

(** ** What a read writes and pulls, block by block *)

Lemma written_prologue response t : written (read_prologue response t) = [].
Proof. unfold read_prologue. rewrite written_app, written_flush. done. Qed.

Lemma pulled_prologue response t : pulled (read_prologue response t) = [].
Proof. unfold read_prologue. rewrite pulled_app, pulled_flush. done. Qed.

Lemma written_cons e evs : written (e :: evs) = written [e] ++ written evs.
Proof. apply (written_app [e]). Qed.

Lemma pulled_cons e evs : pulled (e :: evs) = pulled [e] ++ pulled evs.
Proof. apply (pulled_app [e]). Qed.

Lemma written_teardown t : written (teardown_events t) = [].
Proof. done. Qed.

Lemma pulled_teardown t : pulled (teardown_events t) = [].
Proof. done. Qed.

(** The trace of a state reached through [after] and [torn], as an extension
    of the trace of the state the run started from. *)
Ltac trace_since :=
  erewrite since_app by (simpl; rewrite <- ?app_assoc; reflexivity).

Ltac blocks :=
  rewrite ?written_app, ?pulled_app, ?written_prologue, ?pulled_prologue,
    ?written_flush, ?pulled_flush, ?written_teardown, ?pulled_teardown,
    ?written_read.

(** ** The successful read *)

(** C2. A read that completes without error has written the instruction
    batches it pulled from the source, in order, and then the sentinel, once:
    the successful writes are the batches followed by the sentinel, so there
    is one write more than there are batches, however many there are, and the
    body ends with the three bytes of the sentinel. *)
Theorem read_success_ends_with_sentinel response request id st st' :
  doRead response request id st = (Returned None, st') ->
  written (since st st') = pulled (since st st') ++ [sentinel] /\
  length (written (since st st')) = S (length (pulled (since st st'))) /\
  body (since st st') = concat (pulled (since st st')) ++ bytes_of "0.;".
Proof.
  intros H.
  assert (written (since st st') = pulled (since st st') ++ [sentinel]) as Hw.
  { destruct (tunnels st !! id) as [t|] eqn:Ht;
      [|by rewrite doRead_not_found in H].
    rewrite (doRead_unfold _ _ _ _ _ Ht), stream_unfold in H.
    destruct (reads t) as [|p rest]; [done|]. cbv zeta in H.
    destruct (failure p) as [g|] eqn:Hf; [done|].
    destruct (stream_for _ _ _ _) as [o2 st2] eqn:Hloop.
    apply stream_for_run in Hloop as (evs & w & Hrun & ->).
    destruct o2 as [[[g|m]| |[g|]]| |]; try done.
    all: pose proof (loop_written _ _ _ _ _ Hrun ltac:(eauto)) as Hok.
    all: rewrite Hf in Hok.
    all: rewrite stream_end_unfold in H; cbv zeta in H.
    all: destruct (Write_result _ _); [done|]; injection H as <-.
    all: trace_since.
    all: blocks; rewrite Hok, (pulled_cons _ evs), (written_cons _ (flush_events _)),
      (pulled_cons _ (flush_events _)); blocks; simpl.
    all: by rewrite ?app_nil_r, <- ?app_assoc. }
  split; [done|]. split.
  - rewrite Hw, length_app. simpl. lia.
  - unfold body. rewrite Hw, concat_app. simpl. done.
Qed.

Lemma read_success_ends_with_sentinel_witness :
  let t := sample_tunnel two_batches None None in
  let st := registered t in
  let st' := snd (doRead sound_response (sample_request "") sample_uuid st) in
  let t0 := sample_tunnel [batch "" false false] None None in
  let st0 := registered t0 in
  let st0' := snd (doRead sound_response (sample_request "") sample_uuid st0) in
  (doRead sound_response (sample_request "") sample_uuid st = (Returned None, st') /\
   pulled (since st st') = [bytes_of "4.sync,1.0;"; bytes_of "3.nop;"] /\
   written (since st st') = [bytes_of "4.sync,1.0;"; bytes_of "3.nop;"] ++ [sentinel] /\
   body (since st st') = bytes_of "4.sync,1.0;3.nop;0.;") /\
  (doRead sound_response (sample_request "") sample_uuid st0 = (Returned None, st0') /\
   pulled (since st0 st0') = [] /\
   written (since st0 st0') = [sentinel]).
Proof.
  intros t st st' t0 st0 st0'.
  assert (doRead sound_response (sample_request "") sample_uuid st
          = (Returned None, st')) as Hrun by (vm_compute; reflexivity).
  assert (doRead sound_response (sample_request "") sample_uuid st0
          = (Returned None, st0')) as Hrun0 by (vm_compute; reflexivity).
  destruct (read_success_ends_with_sentinel _ _ _ _ _ Hrun) as (Hw & _ & Hb).
  destruct (read_success_ends_with_sentinel _ _ _ _ _ Hrun0) as (Hw0 & _).
  assert (pulled (since st st') = [bytes_of "4.sync,1.0;"; bytes_of "3.nop;"]) as Hp
    by (vm_compute; reflexivity).
  assert (pulled (since st0 st0') = []) as Hp0 by (vm_compute; reflexivity).
  split.
  - split; [exact Hrun|]. split; [exact Hp|]. split.
    + rewrite Hw, Hp. reflexivity.
    + rewrite Hb, Hp. reflexivity.
  - split; [exact Hrun0|]. split; [exact Hp0|]. rewrite Hw0, Hp0. reflexivity.
Defined.

(** ** Teardown on a failed fetch *)

Lemma fetched_app evs1 evs2 : fetched (evs1 ++ evs2) = fetched evs1 ++ fetched evs2.
Proof. apply omap_app. Qed.

Lemma fetched_cons e evs : fetched (e :: evs) = fetched_of e ++ fetched evs.
Proof. by destruct e. Qed.

Lemma elem_fetched m err evs : EvReadSome m err ∈ evs <-> (m, err) ∈ fetched evs.
Proof.
  unfold fetched. rewrite list_elem_of_omap. split.
  - intros H. by exists (EvReadSome m err).
  - intros ([] & H & E); try done. by injection E as -> ->.
Qed.

Lemma fetched_flush response : fetched (flush_events response) = [].
Proof. unfold flush_events. by destruct (flusher response). Qed.

Lemma fetched_prologue response t : fetched (read_prologue response t) = [].
Proof. unfold read_prologue. by rewrite fetched_app, fetched_flush. Qed.

Lemma fetched_teardown t : fetched (teardown_events t) = [].
Proof. done. Qed.

Lemma fetched_nil : fetched [] = [].
Proof. done. Qed.

Ltac fetched_blocks :=
  repeat first [rewrite fetched_app | rewrite fetched_cons | rewrite fetched_nil
               | rewrite fetched_prologue | rewrite fetched_flush
               | rewrite fetched_teardown];
  cbn [fetched_of read_error_log app]; rewrite ?app_nil_r.

(** C4, as the code has it.  When a fetch of a read fails with the kind
    connection-closed, the events that follow it are: the tunnel is removed
    from the registry and closed, then the sentinel is handed to [Write]; if
    that call succeeds, the response is flushed when the response writer
    implements the flusher interface, and not otherwise; the reader is
    released.  The tunnel is no longer in the registry. *)
Theorem read_connection_closed_teardown response request id st o st' m g :
  doRead response request id st = (o, st') ->
  EvReadSome m (Some g) ∈ since st st' ->
  Kind g = ErrConnectionClosed ->
  exists t pre r tail,
    tunnels st !! id = Some t /\
    since st st'
    = pre ++ [EvReadSome m (Some g)] ++ teardown_events t
      ++ [EvWrite sentinel r] ++ tail ++ [EvReleaseReader (GetUUID t)] /\
    (r = None -> tail = if flusher response then [EvFlush] else []) /\
    tunnels st' !! GetUUID t = None.
Proof.
  intros H Hin Hk.
  destruct (tunnels st !! id) as [t|] eqn:Ht.
  2:{ rewrite doRead_not_found in H by done. injection H as <- <-.
      unfold since in Hin. rewrite drop_all in Hin. by apply not_elem_of_nil in Hin. }
  exists t.
  rewrite (doRead_unfold _ _ _ _ _ Ht), stream_unfold in H.
  apply elem_fetched in Hin.
  destruct (reads t) as [|p rest].
  { injection H as <- <-. revert Hin. trace_since. fetched_blocks.
    intros Hin. by apply not_elem_of_nil in Hin. }
  cbv zeta in H. destruct (failure p) as [g0|] eqn:Hf.
  - injection H as <- <-. revert Hin. case_decide as Hk0.
    all: trace_since; fetched_blocks; intros Hin.
    all: apply list_elem_of_singleton in Hin; injection Hin as -> ->.
    2: done.
    exists (read_prologue response t), (Write_result response (nwrites st + 0 + 0)),
      (flush_events response).
    split; [done|]. split; [done|]. split; [by intros _|]. apply lookup_delete_eq.
  - destruct (stream_for _ _ _ _) as [o2 st2] eqn:Hloop.
    apply stream_for_run in Hloop as (evs & w & Hrun & ->).
    assert ((m, Some g) ∈ (message p, @None ErrGuac) :: fetched evs
            -> exists pre, EvReadSome (message p) None :: evs
                           = pre ++ [EvReadSome m (Some g)] /\
               (o2 = Returned (LoopCond (Some g))
                \/ o2 = Returned (LoopReturn (Tagged g)))) as Hlast.
    { intros Hev.
      assert (EvReadSome m (Some g) ∈ EvReadSome (message p) (failure p) :: evs) as Hev'.
      { apply elem_fetched. by rewrite fetched_cons, Hf. }
      destruct (loop_fetch_failure _ _ _ _ _ Hrun _ _ Hev') as [[pre E] Ho].
      exists pre. rewrite Hf in E. done. }
    destruct o2 as [[[g1|m1]| |[g1|]]| |].
    all: try (rewrite stream_end_unfold in H; cbv zeta in H;
              destruct (Write_result response _) as [mw|] eqn:Hw).
    all: try case_decide.
    all: injection H as <- <-; revert Hin; trace_since; fetched_blocks; intros Hin.
    all: destruct (Hlast Hin) as (pre & E & [Ho|Ho]); try discriminate Ho.
    all: injection Ho as ->; try done.
    + exists (read_prologue response t ++ pre),
        (Write_result response (nwrites st + 0 + 0 + w)), (flush_events response).
      split; [done|]. split.
      { rewrite (app_comm_cons evs), E, <- !app_assoc. reflexivity. }
      split; [by intros _|]. apply lookup_delete_eq.
    + exists (read_prologue response t ++ pre), (Some mw), [].
      split; [done|]. split.
      { rewrite (app_comm_cons evs), E, <- !app_assoc. reflexivity. }
      split; [done|]. apply lookup_delete_eq.
    + exists (read_prologue response t ++ pre), None, (flush_events response).
      split; [done|]. split.
      { rewrite (app_comm_cons evs), E, <- !app_assoc. reflexivity. }
      split; [by intros _|]. apply lookup_delete_eq.
Qed.

Ltac in_list := vm_compute; repeat constructor.

Lemma read_connection_closed_teardown_witness :
  let t := sample_tunnel [batch "3.nop;" false false; source_end ErrConnectionClosed]
             None None in
  let st := registered t in
  let st' := snd (doRead sound_response (sample_request "") sample_uuid st) in
  EvReadSome [] (Some closed_error) ∈ since st st' /\
  exists t' pre r tail,
    tunnels st !! sample_uuid = Some t' /\
    since st st'
    = pre ++ [EvReadSome [] (Some closed_error)] ++ teardown_events t'
      ++ [EvWrite sentinel r] ++ tail ++ [EvReleaseReader (GetUUID t')] /\
    (r = None -> tail = if flusher sound_response then [EvFlush] else []) /\
    tunnels st' !! GetUUID t' = None.
Proof.
  intros t st st'.
  assert (EvReadSome [] (Some closed_error) ∈ since st st') as Hin by in_list.
  split; [exact Hin|].
  apply (read_connection_closed_teardown sound_response (sample_request "")
           sample_uuid st
           (fst (doRead sound_response (sample_request "") sample_uuid st)) st').
  - vm_compute. reflexivity.
  - exact Hin.
  - reflexivity.
Defined.

(** C4, as stated, fails.  With a response writer that does not implement
    the flusher interface, a read whose first fetch fails with the kind
    connection-closed tears the tunnel down and writes the sentinel, and
    nothing is flushed.  With one that does, but whose write of the sentinel
    fails after a later fetch failed, nothing is flushed after that write
    either, and the handler panics. *)
Lemma read_connection_closed_without_flush :
  (let t := sample_tunnel [source_end ErrConnectionClosed] None None in
   let st := registered t in
   let run := doRead plain_response (sample_request "") sample_uuid st in
   fst run = Returned (Some (Tagged closed_error)) /\
   since st (snd run)
   = [EvAcquireReader sample_uuid;
      EvSetHeader "Content-Type" "application/octet-stream";
      EvSetHeader "Cache-Control" "no-cache";
      EvReadSome [] (Some closed_error)]%string
     ++ teardown_events t
     ++ [EvWrite sentinel None; EvReleaseReader sample_uuid]) /\
  (let t := sample_tunnel [batch "3.nop;" false false; source_end ErrConnectionClosed]
              None None in
   let st := registered t in
   let run := doRead failing_response (sample_request "") sample_uuid st in
   fst run = Panic /\
   since st (snd run)
   = [EvAcquireReader sample_uuid;
      EvSetHeader "Content-Type" "application/octet-stream";
      EvSetHeader "Cache-Control" "no-cache";
      EvFlush;
      EvReadSome (bytes_of "3.nop;") None;
      EvWrite (bytes_of "3.nop;") None;
      EvAvailable false;
      EvFlush;
      EvHasQueuedReaderThreads false;
      EvReadSome [] (Some closed_error)]%string
     ++ teardown_events t
     ++ [EvWrite sentinel (Some "broken pipe"%string); EvReleaseReader sample_uuid]).
Proof. split; split; vm_compute; reflexivity. Qed.

(** ** Yielding to a queued reader *)

(** Case analysis on the membership of an event in a trace made of blocks. *)
Ltac elem_cases H :=
  repeat match type of H with
         | _ ∈ _ ++ _ => apply elem_of_app in H as [H|H]
         | _ ∈ _ :: _ => apply elem_of_cons in H as [H|H]
         | _ ∈ [] => by apply not_elem_of_nil in H
         | _ ∈ flush_events _ => apply flush_events_elem in H
         | _ ∈ read_prologue _ _ => unfold read_prologue in H
         | _ ∈ teardown_events _ => unfold teardown_events in H
         end.

Lemma getTunnel_found id t st :
  tunnels st !! id = Some t -> getTunnel id st = (Returned (inl t), st).
Proof. intros H. unfold getTunnel, Get, bind. simpl. by rewrite H. Qed.

(** C5. A read that ends by yielding to a queued reader (the queued-readers
    signal was answered by true) has neither removed the tunnel from the
    registry nor closed it, no fetch of it failed, the registry is unchanged
    and the identity still resolves to the tunnel.  And whenever a read does
    remove or close a tunnel, a fetch or a write on the response failed
    during that read. *)
Theorem read_yield_keeps_tunnel response request id st o st' :
  doRead response request id st = (o, st') ->
  (EvHasQueuedReaderThreads true ∈ since st st' ->
   (forall e, e ∈ since st st' -> is_teardown e = false) /\
   (forall m g, EvReadSome m (Some g) ∉ since st st') /\
   tunnels st' = tunnels st /\
   exists t, tunnels st !! id = Some t /\
             getTunnel id st' = (Returned (inl t), st')) /\
  (forall e, e ∈ since st st' -> is_teardown e = true ->
   exists f, f ∈ since st st' /\ is_io_failure f = true).
Proof.
  intros H.
  destruct (tunnels st !! id) as [t|] eqn:Ht.
  2:{ rewrite doRead_not_found in H by done. injection H as <- <-.
      unfold since. rewrite drop_all.
      split; [intros Hin|intros e Hin]; by apply not_elem_of_nil in Hin. }
  rewrite (doRead_unfold _ _ _ _ _ Ht), stream_unfold in H.
  destruct (reads t) as [|p rest].
  { injection H as <- <-. trace_since.
    split; [intros Hin|intros e Hin Htd]; elem_cases Hin; by subst. }
  cbv zeta in H. destruct (failure p) as [g0|] eqn:Hf.
  { injection H as <- <-. case_decide; trace_since.
    all: split; [intros Hin; elem_cases Hin; by subst|intros e _ _].
    all: exists (EvReadSome (message p) (Some g0)); split; [set_solver|done]. }
  destruct (stream_for _ _ _ _) as [o2 st2] eqn:Hloop.
  apply stream_for_run in Hloop as (evs & w & Hrun & ->).
  pose proof (loop_no_teardown _ _ _ _ _ Hrun) as Hno.
  pose proof (loop_yield _ _ _ _ _ Hrun) as Hy.
  pose proof (loop_error_cause _ _ _ _ _ Hrun) as Hcause.
  pose proof (loop_fetch_failure _ _ _ _ _ Hrun) as Hfetch.
  rewrite Hf in Hcause, Hfetch.
  destruct o2 as [[[g1|m1]| |[g1|]]| |].
  all: try (rewrite stream_end_unfold in H; cbv zeta in H;
            destruct (Write_result response _) as [mw|] eqn:Hw).
  all: try case_decide.
  all: injection H as <- <-; trace_since.
  all: split.
  all: try (intros Hin; elem_cases Hin; try (by subst); by specialize (Hy Hin)).
  all: try (intros e _ _; destruct Hcause as (f & Hfin & Hio); [by eauto|];
            exists f; split; [set_solver|done]).
  all: try (intros e Hin Htd; elem_cases Hin; try (by subst);
            by rewrite (Hno _ Hin) in Htd).
  all: intros _; split;
    [intros e Hin; elem_cases Hin; try (by subst); by apply Hno|].
  all: split;
    [intros m g Hin; elem_cases Hin; try done;
     by destruct (Hfetch m g) as [_ [?|?]]; [apply elem_of_cons; right|..]|].
  all: split; [done|]; exists t; split; [done|]; by apply getTunnel_found.
Qed.

Lemma read_yield_keeps_tunnel_witness :
  let t := sample_tunnel [batch "4.sync,1.0;" true false; batch "3.nop;" true true;
                          batch "3.nop;" true false] None None in
  let st := registered t in
  let st' := snd (doRead sound_response (sample_request "") sample_uuid st) in
  EvHasQueuedReaderThreads true ∈ since st st' /\
  tunnels st' = tunnels st /\
  getTunnel sample_uuid st' = (Returned (inl t), st') /\
  written (since st st') = [bytes_of "4.sync,1.0;"; bytes_of "3.nop;"; sentinel].
Proof.
  intros t st st'.
  assert (EvHasQueuedReaderThreads true ∈ since st st') as Hin by in_list.
  destruct (read_yield_keeps_tunnel sound_response (sample_request "") sample_uuid st
              (fst (doRead sound_response (sample_request "") sample_uuid st)) st')
    as [Hy _]; [vm_compute; reflexivity|].
  destruct (Hy Hin) as (_ & _ & Hsame & t' & Ht' & Hget).
  split; [exact Hin|]. split; [exact Hsame|]. split.
  - rewrite Hget. f_equal. f_equal. f_equal.
    assert (tunnels st !! sample_uuid = Some t) as Ht by reflexivity.
    congruence.
  - vm_compute. reflexivity.
Defined.

(** ** A first fetch that fails *)

(** C6. When the first fetch of a read fails, [stream] returns the failure
    having added only that fetch to the trace, so it wrote nothing; [doRead]
    then removes the tunnel from the registry and closes it, nothing having
    been written before that, and returns the failure.  The only bytes such a
    read ever hands to [Write] are those of the sentinel. *)
Theorem read_first_fetch_failure response request id st t p rest g :
  tunnels st !! id = Some t ->
  reads t = p :: rest ->
  failure p = Some g ->
  let st1 := after (read_prologue response t) 0 st in
  written (read_prologue response t) = [] /\
  stream response (reads t) t st1
  = (Returned (Some (Tagged g)), after [EvReadSome (message p) (Some g)] 0 st1) /\
  exists st' mid post,
    doRead response request id st = (Returned (Some (Tagged g)), st') /\
    since st st'
    = read_prologue response t ++ [EvReadSome (message p) (Some g)] ++ mid
      ++ teardown_events t ++ post /\
    written mid = [] /\
    (forall payload r, EvWrite payload r ∈ since st st' -> payload = sentinel) /\
    tunnels st' !! GetUUID t = None.
Proof.
  intros Ht Hr Hf st1. split; [apply written_prologue|].
  assert (stream response (reads t) t st1
          = (Returned (Some (Tagged g)),
             after [EvReadSome (message p) (Some g)] 0 st1)) as Hs.
  { rewrite stream_unfold, Hr. cbv zeta. by rewrite Hf. }
  split; [exact Hs|].
  rewrite (doRead_unfold _ _ _ _ _ Ht). fold st1. rewrite Hs.
  destruct (decide (Kind g = ErrConnectionClosed)) as [Hk|Hk].
  - eexists _, [], _. split; [done|]. trace_since.
    split; [reflexivity|]. split; [done|]. split; [|apply lookup_delete_eq].
    intros payload r Hin. elem_cases Hin; try done. by injection Hin as -> _.
  - eexists _, [read_error_log (Tagged g)], _. split; [done|]. trace_since.
    split; [reflexivity|]. split; [done|]. split; [|apply lookup_delete_eq].
    intros payload r Hin. elem_cases Hin; done.
Qed.

Lemma read_first_fetch_failure_witness :
  let p := source_end ErrServer in
  let t := sample_tunnel [p; batch "3.nop;" true false] None None in
  let st := registered t in
  let st1 := after (read_prologue sound_response t) 0 st in
  stream sound_response (reads t) t st1
  = (Returned (Some (Tagged {| Kind := ErrServer; Msg := "source ended" |})),
     after [EvReadSome [] (failure p)] 0 st1) /\
  fst (doRead sound_response (sample_request "") sample_uuid st)
  = Returned (Some (Tagged {| Kind := ErrServer; Msg := "source ended" |})) /\
  body (since st (snd (doRead sound_response (sample_request "") sample_uuid st))) = [] /\
  tunnels (snd (doRead sound_response (sample_request "") sample_uuid st))
    !! sample_uuid = None.
Proof.
  intros p t st st1.
  destruct (read_first_fetch_failure sound_response (sample_request "") sample_uuid st
              t p [batch "3.nop;" true false] {| Kind := ErrServer; Msg := "source ended" |})
    as (_ & Hs & st' & mid & post & Hrun & _ & _ & _ & Hgone).
  - reflexivity.
  - reflexivity.
  - reflexivity.
  - split; [exact Hs|]. rewrite Hrun. split; [reflexivity|].
    split; [|exact Hgone]. rewrite <- Hrun. vm_compute. reflexivity.
Defined.

(** ** Unknown identities and failed connects *)

(** C7. For an identity that is not in the registry, never registered or
    removed by a deregistration, read and write both return the error of
    kind not-found and touch nothing; and when session establishment fails,
    the connect request returns an error of that same kind. *)
Theorem unknown_identity_is_not_found :
  (forall response request id st,
     tunnels st !! id = None ->
     exists g, Kind g = ErrResourceNotFound /\
       doRead response request id st = (Returned (Some (Tagged g)), st) /\
       doWrite response request id st = (Returned (Some (Tagged g)), st)) /\
  (forall response request t st,
     let st1 := snd (deregisterTunnel t st) in
     exists g, Kind g = ErrResourceNotFound /\
       doRead response request (GetUUID t) st1 = (Returned (Some (Tagged g)), st1) /\
       doWrite response request (GetUUID t) st1 = (Returned (Some (Tagged g)), st1)) /\
  (forall s response request st e,
     RawQuery request = "connect"%string ->
     connect s request = inr e ->
     exists g, Kind g = ErrResourceNotFound /\
       handleTunnelRequestCore s response request st
       = (Returned (Some (Tagged g)), st)).
Proof.
  assert (forall response request id st,
     tunnels st !! id = None ->
     exists g, Kind g = ErrResourceNotFound /\
       doRead response request id st = (Returned (Some (Tagged g)), st) /\
       doWrite response request id st = (Returned (Some (Tagged g)), st)) as Hnone.
  { intros response request id st Hid. eexists. split; [|split].
    2: by apply doRead_not_found. 2: by apply doWrite_not_found. done. }
  split; [exact Hnone|]. split.
  - intros response request t st st1. apply Hnone. apply lookup_delete_eq.
  - intros s response request st e Hq He. eexists. split; [|].
    2:{ unfold handleTunnelRequestCore. rewrite Hq, He. simpl. reflexivity. }
    done.
Qed.

Lemma unknown_identity_is_not_found_witness :
  let t := sample_tunnel two_batches None None in
  let gone := snd (deregisterTunnel t (registered t)) in
  let request := sample_request "" in
  (exists g, Kind g = ErrResourceNotFound /\
     doRead sound_response request sample_uuid empty_state
     = (Returned (Some (Tagged g)), empty_state) /\
     doWrite sound_response request sample_uuid empty_state
     = (Returned (Some (Tagged g)), empty_state)) /\
  (exists g, Kind g = ErrResourceNotFound /\
     doRead sound_response request (GetUUID t) gone = (Returned (Some (Tagged g)), gone) /\
     doWrite sound_response request (GetUUID t) gone = (Returned (Some (Tagged g)), gone)) /\
  (exists g, Kind g = ErrResourceNotFound /\
     handleTunnelRequestCore refusing_servlet sound_response
       (sample_request "connect") empty_state
     = (Returned (Some (Tagged g)), empty_state)).
Proof.
  intros t gone request.
  destruct unknown_identity_is_not_found as (Hnone & Hgone & Hconn).
  split; [|split].
  - apply Hnone. reflexivity.
  - apply Hgone.
  - apply (Hconn _ _ _ _ (Untagged "guacd unreachable"%string)); reflexivity.
Defined.

(** ** A connect whose response cannot be written *)

(** C8. When session establishment succeeds but the write of the identity to
    the response body fails, the connect request returns an error of kind
    server, and the tunnel is in the registry under its identity: nothing was
    removed, and a lookup of the identity finds it. *)
Theorem connect_write_failure_keeps_tunnel s response request st t m :
  RawQuery request = "connect"%string ->
  connect s request = inl t ->
  Write_result response (nwrites st) = Some m ->
  exists st',
    handleTunnelRequestCore s response request st
    = (Returned (Some (Tagged {| Kind := ErrServer; Msg := m |})), st') /\
    tunnels st' = <[GetUUID t := t]> (tunnels st) /\
    tunnels st' !! GetUUID t = Some t /\
    getTunnel (GetUUID t) st' = (Returned (inl t), st') /\
    (forall e, e ∈ since st st' -> is_teardown e = false).
Proof.
  intros Hq Hc Hw. eexists.
  split.
  { unfold handleTunnelRequestCore. rewrite Hq, Hc. simpl.
    unfold registerTunnel, Put, Log, SetHeader, Write, bind, emit, ret. simpl.
    rewrite Hw. reflexivity. }
  simpl. split; [done|]. split; [apply lookup_insert_eq|]. split.
  - apply getTunnel_found. apply lookup_insert_eq.
  - trace_since. intros e Hin. elem_cases Hin; by subst.
Qed.

Lemma connect_write_failure_keeps_tunnel_witness :
  let t := sample_tunnel two_batches None None in
  let run := handleTunnelRequestCore (accepting_servlet t) broken_response
               (sample_request "connect") empty_state in
  fst run = Returned (Some (Tagged {| Kind := ErrServer; Msg := "broken pipe" |})) /\
  tunnels (snd run) !! sample_uuid = Some t.
Proof.
  intros t run.
  destruct (connect_write_failure_keeps_tunnel (accepting_servlet t) broken_response
              (sample_request "connect") empty_state t "broken pipe"%string)
    as (st' & Hrun & _ & Hreg & _); [reflexivity..|].
  unfold run. rewrite Hrun. split; [reflexivity|exact Hreg].
Defined.

(** ** The write relay *)

Lemma doWrite_unfold response request id t st :
  tunnels st !! id = Some t ->
  doWrite response request id st =
  let st1 := after (write_prologue t request) 0 st in
  match snd (io_Copy (accepts t) request) with
  | None => (Returned None, after [EvReleaseWriter (GetUUID t)] 0 st1)
  | Some _ =>
      (Returned (Close_result t),
       after ((match Close_result t with
               | Some _ => [EvLog DebugLevel "Error closing tunnel"%string]
               | None => []
               end) ++ [EvReleaseWriter (GetUUID t)]) 0 (torn t st1))
  end.
Proof.
  intros Ht. unfold doWrite, getTunnel, Get, bind at 1 2. simpl. rewrite Ht. simpl.
  unfold SetHeader, AcquireWriter, defer, deregisterTunnel, Close, Remove, Log,
    ReleaseWriter, write_prologue.
  unfold bind, emit, ret, torn, teardown_events, after. simpl.
  destruct (snd (io_Copy (accepts t) request)); simpl.
  - destruct (Close_result t); simpl.
    all: rewrite <- ?app_assoc, ?Nat.add_0_r; simpl; done.
  - rewrite <- ?app_assoc, ?Nat.add_0_r; simpl; done.
Qed.

(** C1, what the code does.  When the copy of the request body into the
    tunnel fails, [doWrite] removes the tunnel from the registry and closes
    it, and what it returns is the result of [Close], whatever the error of
    the copy was: no error at all when the close succeeds, the error of the
    close when it fails.  The error of the copy is never returned. *)
Theorem write_copy_failure_returns_close_result response request id st t e :
  tunnels st !! id = Some t ->
  snd (io_Copy (accepts t) request) = Some e ->
  exists st',
    doWrite response request id st = (Returned (Close_result t), st') /\
    tunnels st' !! GetUUID t = None /\
    exists pre post,
      since st st' = pre ++ teardown_events t ++ post.
Proof.
  intros Ht He. rewrite (doWrite_unfold _ _ _ _ _ Ht), He. cbv zeta.
  eexists. split; [reflexivity|]. split; [apply lookup_delete_eq|].
  trace_since. by eexists _, _.
Qed.

Lemma write_copy_failure_returns_close_result_witness :
  let t := sample_tunnel [] stuck_writer None in
  let request := sample_request "" in
  snd (io_Copy (accepts t) request) = Some (Untagged "connection reset by peer"%string) /\
  fst (doWrite sound_response request sample_uuid (registered t)) = Returned None.
Proof.
  intros t request. split; [reflexivity|].
  destruct (write_copy_failure_returns_close_result sound_response request sample_uuid
              (registered t) t (Untagged "connection reset by peer"%string))
    as (st' & Hrun & _); [reflexivity|reflexivity|].
  rewrite Hrun. reflexivity.
Defined.

(** ** Queries that are too short *)

Lemma HasPrefix_split p : forall q, HasPrefix q p = true -> exists r, q = (p ++ r)%string.
Proof.
  unfold HasPrefix. induction p as [|a p IH]; intros q H.
  - by exists q.
  - destruct q as [|b q]; simpl in H; [done|].
    destruct (ascii_dec a b) as [->|]; [|done].
    destruct (IH _ H) as [r ->]. by exists r.
Qed.

Lemma string_length_app (a b : string) :
  String.length (a ++ b) = String.length a + String.length b.
Proof. induction a as [|c a IH]; simpl; [done|]. by rewrite IH. Qed.

Lemma substring_whole_prefix (a b : string) :
  String.substring 0 (String.length a) (a ++ b) = a.
Proof.
  induction a as [|c a IH]; simpl.
  - by destruct b.
  - by rewrite IH.
Qed.

Lemma slice_short q lo hi : String.length q < hi -> slice q lo hi = None.
Proof.
  intros H. unfold slice.
  destruct (hi <=? String.length q)%nat eqn:E; [apply Nat.leb_le in E; lia|].
  by rewrite andb_false_r.
Qed.

Lemma substring_skip_prefix (p s : string) n :
  String.substring (String.length p) n (p ++ s) = String.substring 0 n s.
Proof. induction p as [|c p IH]; simpl; [done|]. exact IH. Qed.

Lemma slice_identity (p id suffix : string) :
  String.length id = UuidLength ->
  slice (p ++ id ++ suffix) (String.length p) (String.length p + UuidLength) = Some id.
Proof.
  intros Hlen. unfold slice. rewrite !string_length_app, Hlen.
  destruct (String.length p <=? String.length p + UuidLength)%nat eqn:E1;
    [|apply Nat.leb_gt in E1; lia].
  destruct (String.length p + UuidLength
            <=? String.length p + (UuidLength + String.length suffix))%nat eqn:E2;
    [|apply Nat.leb_gt in E2; lia].
  simpl. f_equal.
  replace (String.length p + UuidLength - String.length p) with (String.length id) by lia.
  rewrite substring_skip_prefix. apply substring_whole_prefix.
Qed.

(** ** Dispatch *)

Lemma HasPrefix_app (p r : string) : HasPrefix (p ++ r) p = true.
Proof.
  unfold HasPrefix. induction p as [|c p IH]; simpl.
  - by destruct r.
  - by destruct (ascii_dec c c).
Qed.

Lemma dispatch_read s response request st id suffix :
  RawQuery request = (ReadPrefix ++ id ++ suffix)%string ->
  String.length id = UuidLength ->
  handleTunnelRequestCore s response request st = doRead response request id st.
Proof.
  intros Hq Hlen. unfold handleTunnelRequestCore. rewrite Hq.
  unfold ReadPrefixLength. rewrite slice_identity, HasPrefix_app by done.
  simpl. reflexivity.
Qed.

Lemma dispatch_write s response request st id suffix :
  RawQuery request = (WritePrefix ++ id ++ suffix)%string ->
  String.length id = UuidLength ->
  handleTunnelRequestCore s response request st = doWrite response request id st.
Proof.
  intros Hq Hlen. unfold handleTunnelRequestCore. rewrite Hq.
  unfold WritePrefixLength. rewrite slice_identity, HasPrefix_app by done.
  simpl. reflexivity.
Qed.



Section Totality.

Variable GetGuacamoleStatusCode : ErrType -> nat.
Variable GetHTTPStatusCode : ErrType -> nat.

Lemma ServeHTTP_panic s w r st st' :
  handleTunnelRequestCore s w r st = (Panic, st') ->
  ServeHTTP GetGuacamoleStatusCode GetHTTPStatusCode s w r st = (Panic, st').
Proof. intros H. unfold ServeHTTP, bind. by rewrite H. Qed.

Lemma ServeHTTP_untagged s w r st st' m :
  handleTunnelRequestCore s w r st = (Returned (Some (Untagged m)), st') ->
  ServeHTTP GetGuacamoleStatusCode GetHTTPStatusCode s w r st = (Panic, st').
Proof. intros H. unfold ServeHTTP, bind. by rewrite H. Qed.

(** C9. A query that starts with the read prefix or with the write prefix
    and is shorter than the prefix followed by 36 characters makes the slice
    expression of the dispatcher go out of range: the dispatch core panics,
    having done nothing, and so does the top-level handler; no error is
    returned. *)
Theorem short_prefixed_query_panics s w r st :
  (HasPrefix (RawQuery r) ReadPrefix = true /\
   String.length (RawQuery r) < ReadPrefixLength + UuidLength) \/
  (HasPrefix (RawQuery r) WritePrefix = true /\
   String.length (RawQuery r) < WritePrefixLength + UuidLength) ->
  handleTunnelRequestCore s w r st = (Panic, st) /\
  ServeHTTP GetGuacamoleStatusCode GetHTTPStatusCode s w r st = (Panic, st).
Proof.
  intros H.
  assert (handleTunnelRequestCore s w r st = (Panic, st)) as Hcore.
  { unfold handleTunnelRequestCore.
    destruct H as [[Hp Hlen]|[Hp Hlen]].
    all: rewrite (slice_short _ _ _ Hlen).
    all: apply HasPrefix_split in Hp as Hq; destruct Hq as [rest Hq].
    all: rewrite Hp, Hq; simpl; reflexivity. }
  split; [exact Hcore|]. by apply ServeHTTP_panic.
Qed.

(** C10. The top-level handler panics on every error of the dispatch core
    that is not a tagged error.  Two paths produce such errors: the end of
    [stream] returns the error of a failed write of the sentinel as it is,
    and [doWrite] returns the error of [Close].  So a write request whose
    copy fails and whose tunnel fails to close with a plain error makes the
    handler panic; and a read request whose write of the sentinel fails
    makes it panic too, the type assertion of [doRead] failing first. *)
Theorem untagged_errors_make_ServeHTTP_panic :
  (forall s w r st st' m,
     handleTunnelRequestCore s w r st = (Returned (Some (Untagged m)), st') ->
     ServeHTTP GetGuacamoleStatusCode GetHTTPStatusCode s w r st = (Panic, st')) /\
  (forall w t err st m,
     Write_result w (nwrites st) = Some m ->
     fst (stream_end w t err st) = Returned (Some (Untagged m))) /\
  (forall w r id st t e m,
     tunnels st !! id = Some t ->
     snd (io_Copy (accepts t) r) = Some e ->
     Close_result t = Some (Untagged m) ->
     fst (doWrite w r id st) = Returned (Some (Untagged m))) /\
  (forall s w r st id suffix t e m,
     RawQuery r = (WritePrefix ++ id ++ suffix)%string ->
     String.length id = 36 ->
     tunnels st !! id = Some t ->
     snd (io_Copy (accepts t) r) = Some e ->
     Close_result t = Some (Untagged m) ->
     fst (ServeHTTP GetGuacamoleStatusCode GetHTTPStatusCode s w r st) = Panic) /\
  (forall s w r st id suffix t p rest m,
     RawQuery r = (ReadPrefix ++ id ++ suffix)%string ->
     String.length id = 36 ->
     tunnels st !! id = Some t ->
     reads t = p :: rest ->
     message p = [] ->
     failure p = None ->
     Write_result w (nwrites st) = Some m ->
     fst (stream w (reads t) t (after (read_prologue w t) 0 st))
     = Returned (Some (Untagged m)) /\
     fst (doRead w r id st) = Panic /\
     fst (ServeHTTP GetGuacamoleStatusCode GetHTTPStatusCode s w r st) = Panic).
Proof.
  split; [|split; [|split; [|split]]].
  - intros s w r st st' m H. by apply (ServeHTTP_untagged _ _ _ _ _ m).
  - intros w t err st m Hw. rewrite stream_end_unfold. cbv zeta.
    replace (nwrites match err with Some _ => torn t st | None => st end)
      with (nwrites st) by (by destruct err).
    by rewrite Hw.
  - intros w r id st t e m Ht He Hc.
    by rewrite (doWrite_unfold _ _ _ _ _ Ht), He, Hc.
  - intros s w r st id suffix t e m Hq Hlen Ht He Hc.
    erewrite (ServeHTTP_untagged _ _ _ _ _ m); [done|].
    rewrite (dispatch_write _ _ _ _ _ _ Hq Hlen), (doWrite_unfold _ _ _ _ _ Ht), He, Hc.
    reflexivity.
  - intros s w r st id suffix t p rest m Hq Hlen Ht Hr Hm Hf Hw.
    assert (stream w (reads t) t (after (read_prologue w t) 0 st)
            = (Returned (Some (Untagged m)),
               after [EvWrite sentinel (Some m)] 1
                 (after [EvReadSome (message p) (failure p)] 0
                    (after (read_prologue w t) 0 st)))) as Hs.
    { rewrite stream_unfold, Hr. cbv zeta. rewrite Hf, stream_for_unfold, Hm. simpl.
      rewrite Hf, stream_end_unfold. cbv zeta. simpl.
      rewrite !Nat.add_0_r, Hw. reflexivity. }
    assert (doRead w r id st
            = (Panic, after [EvReleaseReader (GetUUID t)] 0
                        (after [EvWrite sentinel (Some m)] 1
                           (after [EvReadSome (message p) (failure p)] 0
                              (after (read_prologue w t) 0 st))))) as Hd.
    { by rewrite (doRead_unfold _ _ _ _ _ Ht), Hs. }
    split; [by rewrite Hs|]. split; [by rewrite Hd|].
    erewrite ServeHTTP_panic; [done|].
    rewrite (dispatch_read _ _ _ _ _ _ Hq Hlen). exact Hd.
Qed.

End Totality.

Lemma short_prefixed_query_panics_witness :
  let t := sample_tunnel two_batches None None in
  let st := registered t in
  handleTunnelRequestCore (accepting_servlet t) sound_response
    (sample_request "read:6fa459ea") st = (Panic, st) /\
  ServeHTTP no_status no_status (accepting_servlet t) sound_response
    (sample_request "write:6fa459ea-ee8a-3ca4-894e-db77e160355") st = (Panic, st).
Proof.
  intros t st. split.
  - apply (short_prefixed_query_panics no_status no_status). left.
    split; [reflexivity|]. vm_compute. lia.
  - apply (short_prefixed_query_panics no_status no_status). right.
    split; [reflexivity|]. vm_compute. lia.
Defined.

Lemma untagged_errors_make_ServeHTTP_panic_witness :
  let tw := sample_tunnel [] stuck_writer unclosable in
  let tr := sample_tunnel [batch "" false false] None None in
  fst (ServeHTTP no_status no_status (accepting_servlet tw) sound_response
         (sample_request ("write:" ++ sample_uuid)) (registered tw)) = Panic /\
  fst (stream broken_response (reads tr) tr
         (after (read_prologue broken_response tr) 0 (registered tr)))
  = Returned (Some (Untagged "broken pipe"%string)) /\
  fst (ServeHTTP no_status no_status (accepting_servlet tr) broken_response
         (sample_request ("read:" ++ sample_uuid ++ ":42")) (registered tr)) = Panic.
Proof.
  intros tw tr.
  destruct (untagged_errors_make_ServeHTTP_panic no_status no_status)
    as (_ & _ & _ & Hwrite & Hread).
  split.
  - apply (Hwrite _ _ _ _ sample_uuid ""%string tw
             (Untagged "connection reset by peer"%string)
             "use of closed network connection"%string); reflexivity.
  - destruct (Hread (accepting_servlet tr) broken_response
                (sample_request ("read:" ++ sample_uuid ++ ":42")) (registered tr)
                sample_uuid ":42"%string tr (batch "" false false) []
                "broken pipe"%string) as (Hs & _ & Hserve); try reflexivity.
    split; [exact Hs|exact Hserve].
Defined.

(** * Further properties of the servlet *)

(** ** The registry *)

(** X1. Registering a tunnel makes [getTunnel] find it under its identity,
    replacing whatever was filed there; deregistering it makes [getTunnel]
    fail with not-found; neither touches another identity, and a second
    deregistration leaves the registry as the first one left it. *)
Theorem register_lookup_round_trip t st k :
  let st1 := snd (registerTunnel t st) in
  let st2 := snd (deregisterTunnel t st1) in
  getTunnel (GetUUID t) st1 = (Returned (inl t), st1) /\
  getTunnel (GetUUID t) st2
  = (Returned (inr (NewError ErrResourceNotFound ["No such tunnel."%string])), st2) /\
  (k <> GetUUID t ->
   tunnels st1 !! k = tunnels st !! k /\ tunnels st2 !! k = tunnels st !! k) /\
  tunnels (snd (deregisterTunnel t st2)) = tunnels st2.
Proof.
  intros st1 st2. split; [|split; [|split]].
  - apply getTunnel_found. apply lookup_insert_eq.
  - unfold getTunnel, Get, bind. simpl. by rewrite lookup_delete_eq.
  - intros Hk. simpl. split.
    + by rewrite lookup_insert_ne.
    + by rewrite lookup_delete_ne, lookup_insert_ne.
  - simpl. apply map_eq. intros i.
    destruct (decide (i = GetUUID t)) as [->|Hi].
    + by rewrite !lookup_delete_eq.
    + by rewrite !lookup_delete_ne.
Qed.

Lemma register_lookup_round_trip_witness :
  let t := sample_tunnel two_batches None None in
  let st := registered other_tunnel in
  let st1 := snd (registerTunnel t st) in
  let st2 := snd (deregisterTunnel t st1) in
  other_uuid <> GetUUID t /\
  getTunnel sample_uuid st1 = (Returned (inl t), st1) /\
  tunnels st1 !! other_uuid = Some other_tunnel /\
  tunnels st2 !! other_uuid = Some other_tunnel.
Proof.
  intros t st st1 st2.
  assert (other_uuid <> GetUUID t) as Hne by (vm_compute; discriminate).
  destruct (register_lookup_round_trip t st other_uuid) as (Hfound & _ & Hother & _).
  destruct (Hother Hne) as [H1 H2].
  split; [exact Hne|]. split; [exact Hfound|]. split.
  - etrans; [exact H1|reflexivity].
  - etrans; [exact H2|reflexivity].
Defined.

(** ** The read path, case by case *)

Lemma loop_events_kind response cur rest evs o :
  loop_run response cur rest evs o -> forall e, e ∈ evs -> is_loop_event e = true.
Proof.
  induction 1; intros e He.
  - by apply not_elem_of_nil in He.
  - by apply not_elem_of_nil in He.
  - by apply list_elem_of_singleton in He as ->.
  - apply body_events_elem in He as [->|[->|[->| ->]]]; done.
  - apply body_events_elem in He as [->|[->|[->| ->]]]; done.
  - apply elem_of_app in He as [He|He].
    + apply body_events_elem in He as [->|[->|[->| ->]]]; done.
    + apply elem_of_cons in He as [->|He]; [done|]. by apply IHloop_run.
Qed.

(** The runs of [doRead] on a tunnel it found: no reader result at all, a
    first fetch that fails, or a run of the loop followed by one of its
    exits. *)
Ltac read_cases H Ht :=
  rewrite (doRead_unfold _ _ _ _ _ Ht), stream_unfold in H;
  let p := fresh "p" in
  let rest := fresh "rest" in
  let Hreads := fresh "Hreads" in
  let Hf := fresh "Hf" in
  let Hloop := fresh "Hloop" in
  let Hrun := fresh "Hrun" in
  let Hw := fresh "Hw" in
  let o2 := fresh "o2" in
  let st2 := fresh "st2" in
  let evs := fresh "evs" in
  let nw := fresh "nw" in
  destruct (reads _) as [|p rest] eqn:Hreads;
  [ injection H as <- <-
  | cbv zeta in H; destruct (failure p) as [?|] eqn:Hf;
    [ injection H as <- <-; case_decide
    | destruct (stream_for _ _ _ _) as [o2 st2] eqn:Hloop;
      apply stream_for_run in Hloop as (evs & nw & Hrun & ->);
      destruct o2 as [[[?|?]| |[?|]]| |];
      try (rewrite stream_end_unfold in H; cbv zeta in H;
           destruct (Write_result _ _) eqn:Hw);
      try case_decide; injection H as <- <- ] ];
  trace_since.

(** A trace that ends with the event [x], everything before it satisfying
    [P], built block by block. *)
Lemma ends_last (P : Event -> Prop) x :
  exists mid, [x] = mid ++ [x] /\ Forall P mid.
Proof. by exists []. Qed.

Lemma ends_cons (P : Event -> Prop) x b k :
  P b ->
  (exists mid, k = mid ++ [x] /\ Forall P mid) ->
  exists mid, b :: k = mid ++ [x] /\ Forall P mid.
Proof.
  intros Hb (mid & -> & Hmid). exists (b :: mid). split; [done|]. by constructor.
Qed.

Lemma ends_app (P : Event -> Prop) x l k :
  Forall P l ->
  (exists mid, k = mid ++ [x] /\ Forall P mid) ->
  exists mid, l ++ k = mid ++ [x] /\ Forall P mid.
Proof.
  intros Hl (mid & -> & Hmid). exists (l ++ mid).
  split; [by rewrite app_assoc|]. by apply Forall_app.
Qed.

Lemma Forall_flush (P : Event -> Prop) response :
  P EvFlush -> Forall P (flush_events response).
Proof. intros H. unfold flush_events. destruct (flusher response); by repeat constructor. Qed.

Lemma Forall_loop (P : Event -> Prop) response cur rest evs o :
  loop_run response cur rest evs o ->
  (forall e, is_loop_event e = true -> P e) ->
  Forall P evs.
Proof.
  intros Hrun HP. apply Forall_forall. intros e He. apply HP.
  by eapply loop_events_kind.
Qed.

Ltac ends_with Hrun :=
  repeat first
    [ apply ends_last
    | apply ends_cons; [done|]
    | apply ends_app;
      [first [ by apply Forall_flush
             | by (eapply Forall_loop; [exact Hrun|intros []])
             | by repeat constructor ]|] ].

(** X2. The reader role is held for exactly the duration of a read: on a
    tunnel it finds, [doRead] acquires the reader first, and whenever it
    comes to an end, by a return or by a panic, the release of the reader is
    its last event; no role is acquired or released in between. *)
Theorem read_holds_reader_role response request id st t o st' :
  tunnels st !! id = Some t ->
  doRead response request id st = (o, st') ->
  o <> Blocked ->
  exists mid,
    since st st'
    = EvAcquireReader (GetUUID t) :: mid ++ [EvReleaseReader (GetUUID t)] /\
    Forall (fun e => is_role e = false) mid.
Proof.
  intros Ht H Hb.
  assert (forall k,
    (exists mid, k = mid ++ [EvReleaseReader (GetUUID t)]
                 /\ Forall (fun e => is_role e = false) mid) ->
    exists mid, EvAcquireReader (GetUUID t) :: k
                = EvAcquireReader (GetUUID t) :: mid ++ [EvReleaseReader (GetUUID t)]
                /\ Forall (fun e => is_role e = false) mid) as Hhead.
  { intros k (mid & -> & Hmid). by exists mid. }
  read_cases H Ht; try done.
  all: unfold read_prologue, teardown_events; simpl; apply Hhead.
  all: ends_with Hrun.
Qed.

Lemma read_holds_reader_role_witness :
  let t := sample_tunnel [batch "3.nop;" false false; source_end ErrServer] None None in
  let st := registered t in
  let run := doRead failing_response (sample_request "") sample_uuid st in
  fst run = Panic /\
  exists mid,
    since st (snd run)
    = EvAcquireReader sample_uuid :: mid ++ [EvReleaseReader sample_uuid] /\
    Forall (fun e => is_role e = false) mid.
Proof.
  intros t st run. split; [vm_compute; reflexivity|].
  apply (read_holds_reader_role failing_response (sample_request "") sample_uuid st t
           (fst run) (snd run)).
  - reflexivity.
  - vm_compute. reflexivity.
  - vm_compute. discriminate.
Defined.

(** ** The order of the batches *)

Lemma written_step e evs :
  written (e :: evs)
  = match e with EvWrite p None => [p] | _ => [] end ++ written evs.
Proof. by destruct e as [| | | | |? []| | | | | | | | | |]. Qed.

Lemma pulled_step e evs :
  pulled (e :: evs)
  = match e with
    | EvReadSome m _ => if (0 <? length m)%nat then [m] else []
    | _ => []
    end ++ pulled evs.
Proof.
  destruct e; try done. unfold pulled; simpl. by destruct (0 <? length m)%nat.
Qed.

Ltac observe :=
  repeat first
    [ rewrite written_app | rewrite pulled_app
    | rewrite written_step | rewrite pulled_step
    | rewrite written_prologue | rewrite pulled_prologue
    | rewrite written_flush | rewrite pulled_flush
    | rewrite written_teardown | rewrite pulled_teardown ];
  cbn [app read_error_log]; rewrite ?app_nil_r.

(** What the loop wrote is a prefix of what was pulled, the batch the loop
    was entered with included. *)
Lemma loop_written_prefix response cur rest evs o :
  loop_run response cur rest evs o ->
  written evs `prefix_of` pulled (EvReadSome (message cur) (failure cur) :: evs).
Proof.
  induction 1 as [cur rest Hm|cur rest g Hm Hf|cur rest m Hm Hf|cur rest Hm Hf Hq
                 |cur Hm Hf Hq|cur next rest evs o Hm Hf Hq Hrun IH].
  - apply prefix_nil.
  - apply prefix_nil.
  - apply prefix_nil.
  - by rewrite pulled_read, written_body_events, pulled_body_events.
  - by rewrite pulled_read, written_body_events, pulled_body_events.
  - rewrite pulled_read, written_app, pulled_app by done.
    rewrite written_body_events, pulled_body_events, written_read. simpl.
    by apply prefix_cons.
Qed.

(** X3. A read hands the batches to the response in the order in which it
    pulled them from the source, each at most once and none skipped: whatever
    the outcome, the successful writes are a prefix of the batches pulled,
    followed by the sentinel or by nothing. *)
Theorem read_writes_batches_in_order response request id st o st' :
  doRead response request id st = (o, st') ->
  exists ws,
    ws `prefix_of` pulled (since st st') /\
    (written (since st st') = ws \/ written (since st st') = ws ++ [sentinel]).
Proof.
  intros H.
  destruct (tunnels st !! id) as [t|] eqn:Ht.
  2:{ rewrite doRead_not_found in H by done. injection H as <- <-.
      exists []. unfold since. rewrite drop_all. split; [apply prefix_nil|by left]. }
  read_cases H Ht.
  all: try pose proof (loop_written_prefix _ _ _ _ _ Hrun) as Hpre.
  all: try rewrite pulled_step in Hpre.
  all: observe.
  all: try (exists (written evs); split; [exact Hpre|]).
  all: try (exists []; split; [apply prefix_nil|]).
  all: try (by left); try (by right).
  all: destruct (Write_result _ _); simpl; rewrite ?app_nil_r; auto.
Qed.

Lemma read_writes_batches_in_order_witness :
  let t := sample_tunnel [batch "4.sync,1.0;" true false; batch "3.nop;" true false;
                          batch "5.mouse;" true false] None None in
  let st := registered t in
  let run := doRead failing_response (sample_request "") sample_uuid st in
  pulled (since st (snd run)) = [bytes_of "4.sync,1.0;"; bytes_of "3.nop;"] /\
  exists ws,
    ws `prefix_of` pulled (since st (snd run)) /\
    (written (since st (snd run)) = ws \/ written (since st (snd run)) = ws ++ [sentinel]).
Proof.
  intros t st run. split; [vm_compute; reflexivity|].
  apply (read_writes_batches_in_order failing_response (sample_request "") sample_uuid
           st (fst run) (snd run)).
  vm_compute. reflexivity.
Defined.

(** ** Teardown, at most once *)

Lemma teardowns_app evs1 evs2 :
  teardowns (evs1 ++ evs2) = teardowns evs1 ++ teardowns evs2.
Proof. apply filter_app. Qed.

Lemma teardowns_step e evs :
  teardowns (e :: evs) = (if is_teardown e then [e] else []) ++ teardowns evs.
Proof.
  unfold teardowns. rewrite filter_cons.
  destruct (is_teardown e); by case_decide.
Qed.

Lemma teardowns_flush response : teardowns (flush_events response) = [].
Proof. unfold flush_events. by destruct (flusher response). Qed.

Lemma teardowns_loop response cur rest evs o :
  loop_run response cur rest evs o -> teardowns evs = [].
Proof.
  intros Hrun. pose proof (loop_no_teardown _ _ _ _ _ Hrun) as Hno.
  clear Hrun. induction evs as [|e evs IH]; [done|].
  rewrite teardowns_step, (Hno e) by (by left). simpl.
  apply IH. intros e' He'. apply Hno. by right.
Qed.

Lemma teardowns_prologue response t : teardowns (read_prologue response t) = [].
Proof. unfold read_prologue. by rewrite teardowns_app, teardowns_flush. Qed.

Lemma teardowns_teardown t :
  teardowns (teardown_events t)
  = [EvRemove (GetUUID t); EvClose (GetUUID t) (Close_result t)].
Proof. done. Qed.

Ltac count_teardowns Hrun :=
  repeat first
    [ rewrite teardowns_app | rewrite teardowns_step
    | rewrite teardowns_prologue | rewrite teardowns_flush
    | rewrite teardowns_teardown
    | rewrite (teardowns_loop _ _ _ _ _ Hrun) ];
  cbn [app is_teardown read_error_log]; rewrite ?app_nil_r.

(** X4. A request tears its tunnel down at most once: the removals and
    closes in the trace of a read or of a write are either none at all, or
    one removal of the tunnel from the registry followed by one close of
    that tunnel. *)
Theorem request_tears_down_at_most_once response request id st t :
  tunnels st !! id = Some t ->
  let once := [EvRemove (GetUUID t); EvClose (GetUUID t) (Close_result t)] in
  (forall o st', doRead response request id st = (o, st') ->
     teardowns (since st st') = [] \/ teardowns (since st st') = once) /\
  (forall o st', doWrite response request id st = (o, st') ->
     teardowns (since st st') = [] \/ teardowns (since st st') = once).
Proof.
  intros Ht once. split; intros o st' H.
  - read_cases H Ht.
    all: count_teardowns Hrun; auto.
  - rewrite (doWrite_unfold _ _ _ _ _ Ht) in H. cbv zeta in H.
    destruct (snd (io_Copy (accepts t) request)); injection H as <- <-; trace_since.
    + right. unfold write_prologue.
      repeat first [rewrite teardowns_app | rewrite teardowns_step
                   | rewrite teardowns_teardown].
      cbn [app is_teardown]. destruct (Close_result t); reflexivity.
    + left. unfold write_prologue.
      repeat first [rewrite teardowns_app | rewrite teardowns_step].
      reflexivity.
Qed.

Lemma request_tears_down_at_most_once_witness :
  let t := sample_tunnel [batch "3.nop;" false false; source_end ErrConnectionClosed]
             stuck_writer unclosable in
  let st := registered t in
  let once := [EvRemove sample_uuid; EvClose sample_uuid unclosable] in
  teardowns (since st (snd (doRead sound_response (sample_request "") sample_uuid st)))
  = once /\
  teardowns (since st (snd (doWrite sound_response (sample_request "") sample_uuid st)))
  = once.
Proof.
  intros t st once.
  destruct (request_tears_down_at_most_once sound_response (sample_request "")
              sample_uuid st t) as [Hread Hwrite]; [reflexivity|].
  split.
  - destruct (Hread (fst (doRead sound_response (sample_request "") sample_uuid st))
                (snd (doRead sound_response (sample_request "") sample_uuid st)))
      as [Hnone|Honce]; [vm_compute; reflexivity| |exact Honce].
    vm_compute in Hnone. discriminate.
  - destruct (Hwrite (fst (doWrite sound_response (sample_request "") sample_uuid st))
                (snd (doWrite sound_response (sample_request "") sample_uuid st)))
      as [Hnone|Honce]; [vm_compute; reflexivity| |exact Honce].
    vm_compute in Hnone. discriminate.
Defined.

(** ** Where the errors of a read come from *)

Lemma loop_return_origin response cur rest evs o :
  loop_run response cur rest evs o ->
  forall err, o = Returned (LoopReturn err) ->
  (exists m g, EvReadSome m (Some g) ∈ EvReadSome (message cur) (failure cur) :: evs
               /\ err = Tagged g) \/
  (exists p m, EvWrite p (Some m) ∈ evs /\ err = NewError ErrOther [m]).
Proof.
  induction 1 as [cur rest Hm|cur rest g Hm Hf|cur rest m Hm Hf|cur rest Hm Hf Hq
                 |cur Hm Hf Hq|cur next rest evs o Hm Hf Hq Hrun IH]; intros err Ho;
    try done.
  - injection Ho as <-. left. exists (message cur), g. split; [|done].
    rewrite Hf. by left.
  - injection Ho as <-. right. exists (message cur), m. split; [by left|done].
  - destruct (IH err Ho) as [(m & g & Hin & ->)|(p & m & Hin & ->)].
    + left. exists m, g. split; [|done]. right. apply elem_of_app. by right.
    + right. exists p, m. split; [|done]. apply elem_of_app. right. by right.
Qed.

Lemma loop_never_panics response cur rest evs o :
  loop_run response cur rest evs o -> o <> Panic.
Proof. induction 1; done. Qed.

Lemma loop_cond_origin response cur rest evs o :
  loop_run response cur rest evs o ->
  forall g, o = Returned (LoopCond (Some g)) ->
  exists m, EvReadSome m (Some g) ∈ EvReadSome (message cur) (failure cur) :: evs.
Proof.
  induction 1 as [cur rest Hm|cur rest g' Hm Hf|cur rest m' Hm Hf|cur rest Hm Hf Hq
                 |cur Hm Hf Hq|cur next rest evs o Hm Hf Hq Hrun IH]; intros g Ho;
    try done.
  - injection Ho as Ho. exists (message cur). rewrite Ho. by left.
  - destruct (IH g Ho) as [m Hin]. exists m. right. apply elem_of_app. by right.
Qed.

(** Search of an event in a trace made of blocks. *)
Ltac elem_find :=
  first [ assumption
        | by left
        | right; elem_find
        | apply elem_of_app; first [left; elem_find | right; elem_find] ].

(** X5. Every error [doRead] returns is a tagged one, and it comes from one
    of three places: the lookup (not-found, nothing done), a fetch that
    failed (the error of the fetch, as it is), or a write of a batch that
    failed (an error of kind other with the message of the write); in the
    last two cases the tunnel is no longer filed under its identity. *)
Theorem read_error_origin response request id st o st' e :
  doRead response request id st = (o, st') ->
  o = Returned (Some e) ->
  (tunnels st !! id = None /\ st' = st /\
   e = NewError ErrResourceNotFound ["No such tunnel."%string]) \/
  (exists t, tunnels st !! id = Some t /\ tunnels st' !! GetUUID t = None /\
     ((exists m g, EvReadSome m (Some g) ∈ since st st' /\ e = Tagged g) \/
      (exists p m, EvWrite p (Some m) ∈ since st st' /\ e = NewError ErrOther [m]))).
Proof.
  intros H Ho.
  destruct (tunnels st !! id) as [t|] eqn:Ht.
  2:{ rewrite doRead_not_found in H by done. injection H as <- <-.
      left. by injection Ho as <-. }
  right. exists t. split; [done|].
  read_cases H Ht; try done.
  all: injection Ho as <-.
  all: split; [apply lookup_delete_eq|].
  1,2: left; eexists _, _; split; [|reflexivity]; unfold read_prologue; elem_find.
  all: destruct (loop_return_origin _ _ _ _ _ Hrun _ eq_refl)
         as [(mf & gf & Hin & Hg)|(pw & mw & Hin & Hg)].
  all: try (rewrite Hf in Hin; apply elem_of_cons in Hin as [Hin|Hin]; [done|]).
  all: rewrite Hg.
  all: first [ left; exists mf, gf; split; [|reflexivity]; unfold read_prologue; elem_find
             | right; exists pw, mw; split; [|reflexivity]; unfold read_prologue; elem_find ].
Qed.

Lemma read_error_origin_witness :
  let t := sample_tunnel [batch "4.sync,1.0;" true false; batch "3.nop;" true false]
             None None in
  let st := registered t in
  let run := doRead failing_response (sample_request "") sample_uuid st in
  fst run = Returned (Some (NewError ErrOther ["broken pipe"%string])) /\
  tunnels (snd run) !! sample_uuid = None /\
  EvWrite (bytes_of "3.nop;") (Some "broken pipe"%string) ∈ since st (snd run).
Proof.
  intros t st run.
  assert (fst run = Returned (Some (NewError ErrOther ["broken pipe"%string]))) as Hfst
    by (vm_compute; reflexivity).
  destruct (read_error_origin failing_response (sample_request "") sample_uuid st
              (fst run) (snd run) (NewError ErrOther ["broken pipe"%string]))
    as [(Hnone & _)|(t' & Ht' & Hgone & _)].
  - vm_compute. reflexivity.
  - exact Hfst.
  - vm_compute in Hnone. discriminate.
  - split; [exact Hfst|]. split.
    + assert (t' = t) as -> by (vm_compute in Ht'; by injection Ht' as <-).
      exact Hgone.
    + in_list.
Defined.

(** ** Which requests panic *)

Lemma slice_none q lo hi :
  lo <= hi -> slice q lo hi = None -> String.length q < hi.
Proof.
  intros Hle H. unfold slice in H.
  destruct (lo <=? hi)%nat eqn:E1; [|apply Nat.leb_gt in E1; lia].
  destruct (hi <=? String.length q)%nat eqn:E2; [done|].
  by apply Nat.leb_gt in E2.
Qed.

(** X6. The dispatch core panics in two situations only: the query carries
    the read or the write prefix and is too short to hold an identity, or it
    is a read whose write of the sentinel failed.  Connect requests, write
    requests with an identity and all other queries never panic. *)
Theorem core_panics_only_on_short_query_or_failed_sentinel s response request st st' :
  handleTunnelRequestCore s response request st = (Panic, st') ->
  (HasPrefix (RawQuery request) ReadPrefix = true /\
   String.length (RawQuery request) < ReadPrefixLength + UuidLength) \/
  (HasPrefix (RawQuery request) WritePrefix = true /\
   String.length (RawQuery request) < WritePrefixLength + UuidLength) \/
  (HasPrefix (RawQuery request) ReadPrefix = true /\
   exists m, EvWrite sentinel (Some m) ∈ since st st').
Proof.
  unfold handleTunnelRequestCore. intros H.
  destruct (String.length (RawQuery request) =? 0)%nat; [done|].
  destruct (RawQuery request =? "connect")%string.
  { destruct (connect s request) as [t|e]; [|done].
    unfold registerTunnel, Put, Log, SetHeader, Write, bind, emit, ret in H.
    simpl in H. by destruct (Write_result response (nwrites st)). }
  destruct (HasPrefix (RawQuery request) ReadPrefix) eqn:Hr.
  { destruct (slice _ _ _) as [id|] eqn:Hs.
    2:{ left. split; [done|]. eapply slice_none; [|exact Hs]. lia. }
    right. right. split; [done|].
    destruct (tunnels st !! id) as [t|] eqn:Ht;
      [|by rewrite doRead_not_found in H].
    remember Panic as o eqn:Ho in H.
    read_cases H Ht; try done.
    all: try (by destruct (loop_return_origin _ _ _ _ _ Hrun _ eq_refl)
                as [(? & ? & _ & ?)|(? & ? & _ & ?)]).
    all: try (by apply loop_never_panics in Hrun).
    all: eexists; unfold read_prologue; elem_find. }
  destruct (HasPrefix (RawQuery request) WritePrefix) eqn:Hw; [|done].
  destruct (slice _ _ _) as [id|] eqn:Hs.
  2:{ right. left. split; [done|]. eapply slice_none; [|exact Hs]. lia. }
  destruct (tunnels st !! id) as [t|] eqn:Ht;
    [|by rewrite doWrite_not_found in H].
  rewrite (doWrite_unfold _ _ _ _ _ Ht) in H. cbv zeta in H.
  by destruct (snd (io_Copy (accepts t) request)).
Qed.

Lemma core_panics_only_on_short_query_or_failed_sentinel_witness :
  let t := sample_tunnel [batch "" false false] None None in
  let st := registered t in
  let request := sample_request ("read:" ++ sample_uuid) in
  let run := handleTunnelRequestCore (accepting_servlet t) broken_response request st in
  fst run = Panic /\
  exists m, EvWrite sentinel (Some m) ∈ since st (snd run).
Proof.
  intros t st request run.
  assert (run = (Panic, snd run)) as Hrun by (vm_compute; reflexivity).
  split; [by rewrite Hrun|].
  destruct (core_panics_only_on_short_query_or_failed_sentinel _ _ _ _ _ Hrun)
    as [[_ Hlen]|[[Hp _]|[_ Hm]]].
  - vm_compute in Hlen. lia.
  - vm_compute in Hp. discriminate.
  - exact Hm.
Defined.

(** ** The registry invariant *)

Lemma registry_ok_insert t m : registry_ok m -> registry_ok (<[GetUUID t := t]> m).
Proof.
  intros Hm k t' Hk. destruct (decide (GetUUID t = k)) as [<-|Hne].
  - rewrite lookup_insert_eq in Hk. by injection Hk as <-.
  - rewrite lookup_insert_ne in Hk by done. by apply Hm.
Qed.

Lemma registry_ok_delete k m : registry_ok m -> registry_ok (delete k m).
Proof.
  intros Hm k' t Hk. destruct (decide (k = k')) as [<-|Hne].
  - by rewrite lookup_delete_eq in Hk.
  - rewrite lookup_delete_ne in Hk by done. by apply Hm.
Qed.

(** A read leaves the registry as it is, or without the tunnel it served,
    according to whether its trace has teardown events. *)
Lemma doRead_registry response request id st t o st' :
  tunnels st !! id = Some t ->
  doRead response request id st = (o, st') ->
  (teardowns (since st st') = [] /\ tunnels st' = tunnels st) \/
  (teardowns (since st st') <> [] /\
   tunnels st' = delete (GetUUID t) (tunnels st)).
Proof.
  intros Ht H. read_cases H Ht.
  all: count_teardowns Hrun; auto.
Qed.

Lemma doWrite_registry response request id st t o st' :
  tunnels st !! id = Some t ->
  doWrite response request id st = (o, st') ->
  tunnels st' = tunnels st \/ tunnels st' = delete (GetUUID t) (tunnels st).
Proof.
  intros Ht H. rewrite (doWrite_unfold _ _ _ _ _ Ht) in H. cbv zeta in H.
  destruct (snd (io_Copy (accepts t) request)); injection H as <- <-; auto.
Qed.

(** X7. The dispatch core keeps the registry well filed: if every tunnel of
    the registry is filed under its own identity before a request, so it is
    after it, whatever the request and however it ends; and the registry a
    new servlet starts from is well filed. *)
Theorem core_keeps_registry_ok s response request st o st' :
  registry_ok (tunnels st) ->
  handleTunnelRequestCore s response request st = (o, st') ->
  registry_ok (tunnels st') /\
  registry_ok (tunnels (snd (NewHTTPTunnelServlet (connect s)))).
Proof.
  intros Hok H. split; [|by intros k t Hk].
  unfold handleTunnelRequestCore in H.
  destruct (String.length (RawQuery request) =? 0)%nat; [by injection H as <- <-|].
  destruct (RawQuery request =? "connect")%string.
  { destruct (connect s request) as [t|e]; [|by injection H as <- <-].
    unfold registerTunnel, Put, Log, SetHeader, Write, bind, emit, ret in H.
    simpl in H.
    destruct (Write_result response (nwrites st)); injection H as <- <-; simpl;
      by apply registry_ok_insert. }
  destruct (HasPrefix (RawQuery request) ReadPrefix).
  { destruct (slice _ _ _) as [id|]; [|by injection H as <- <-].
    destruct (tunnels st !! id) as [t|] eqn:Ht.
    - destruct (doRead_registry _ _ _ _ _ _ _ Ht H) as [[_ ->]|[_ ->]];
        [done|by apply registry_ok_delete].
    - rewrite doRead_not_found in H by done. by injection H as <- <-. }
  destruct (HasPrefix (RawQuery request) WritePrefix); [|by injection H as <- <-].
  destruct (slice _ _ _) as [id|]; [|by injection H as <- <-].
  destruct (tunnels st !! id) as [t|] eqn:Ht.
  - destruct (doWrite_registry _ _ _ _ _ _ _ Ht H) as [->| ->];
      [done|by apply registry_ok_delete].
  - rewrite doWrite_not_found in H by done. by injection H as <- <-.
Qed.

Lemma core_keeps_registry_ok_witness :
  let t := sample_tunnel two_batches None None in
  let st := registered other_tunnel in
  let run := handleTunnelRequestCore (accepting_servlet t) sound_response
               (sample_request "connect") st in
  registry_ok (tunnels st) /\ registry_ok (tunnels (snd run)) /\
  tunnels (snd run) !! sample_uuid = Some t.
Proof.
  intros t st run.
  assert (registry_ok (tunnels st)) as Hok.
  { intros k t' Hk. destruct (decide (k = other_uuid)) as [->|Hne].
    - vm_compute in Hk. by injection Hk as <-.
    - unfold st, registered in Hk. simpl in Hk.
      by rewrite lookup_singleton_ne in Hk. }
  split; [exact Hok|]. split.
  - apply (core_keeps_registry_ok (accepting_servlet t) sound_response
             (sample_request "connect") st (fst run) (snd run) Hok).
    vm_compute. reflexivity.
  - vm_compute. reflexivity.
Defined.

(** X8. After a read that tore its tunnel down, the identity is unknown: in
    a well-filed registry, when the trace of a read of an identity has
    teardown events, the next read and the next write of that identity fail
    with not-found and do nothing. *)
Theorem read_teardown_makes_identity_unknown response request id st t o st' :
  registry_ok (tunnels st) ->
  tunnels st !! id = Some t ->
  doRead response request id st = (o, st') ->
  teardowns (since st st') <> [] ->
  tunnels st' !! id = None /\
  forall response' request',
    doRead response' request' id st'
    = (Returned (Some (NewError ErrResourceNotFound ["No such tunnel."%string])), st') /\
    doWrite response' request' id st'
    = (Returned (Some (NewError ErrResourceNotFound ["No such tunnel."%string])), st').
Proof.
  intros Hok Ht H Htd.
  assert (tunnels st' !! id = None) as Hgone.
  { destruct (doRead_registry _ _ _ _ _ _ _ Ht H) as [[Hnone _]|[_ ->]]; [done|].
    rewrite (Hok _ _ Ht). apply lookup_delete_eq. }
  split; [exact Hgone|]. intros response' request'.
  split; [by apply doRead_not_found|by apply doWrite_not_found].
Qed.

Lemma read_teardown_makes_identity_unknown_witness :
  let t := sample_tunnel [batch "3.nop;" false false; source_end ErrConnectionClosed]
             None None in
  let st := registered t in
  let run := doRead sound_response (sample_request "") sample_uuid st in
  fst run = Returned None /\
  fst (doRead sound_response (sample_request "") sample_uuid (snd run))
  = Returned (Some (NewError ErrResourceNotFound ["No such tunnel."%string])).
Proof.
  intros t st run. split; [vm_compute; reflexivity|].
  destruct (read_teardown_makes_identity_unknown sound_response (sample_request "")
              sample_uuid st t (fst run) (snd run)) as [_ Hnext].
  - intros k t' Hk. destruct (decide (k = sample_uuid)) as [->|Hne].
    + vm_compute in Hk. by injection Hk as <-.
    + unfold st, registered in Hk. simpl in Hk.
      by rewrite lookup_singleton_ne in Hk.
  - reflexivity.
  - vm_compute. reflexivity.
  - vm_compute. discriminate.
  - destruct (Hnext sound_response (sample_request "")) as [Hread _].
    by rewrite Hread.
Defined.

(** ** From connect to the first read and write *)

Lemma doRead_starts response request id st t o st' :
  tunnels st !! id = Some t ->
  doRead response request id st = (o, st') ->
  exists evs, since st st' = EvAcquireReader (GetUUID t) :: evs.
Proof.
  intros Ht H. read_cases H Ht.
  all: unfold read_prologue; simpl; by eexists.
Qed.

(** X9. On a servlet fresh from its constructor every read is answered by
    not-found.  Once a connect request has had session establishment return
    a tunnel whose identity has 36 characters, whether or not the identity
    could then be written to the response, a read request for that identity
    followed by any suffix acquires the reader of that very tunnel, and a
    write request acquires its writer. *)
Theorem connect_makes_tunnel_reachable establish :
  let s := fst (NewHTTPTunnelServlet establish) in
  let st0 := snd (NewHTTPTunnelServlet establish) in
  (forall response request id,
     doRead response request id st0
     = (Returned (Some (NewError ErrResourceNotFound ["No such tunnel."%string])), st0)) /\
  (forall response request st t,
     RawQuery request = "connect"%string ->
     establish request = inl t ->
     String.length (GetUUID t) = 36 ->
     let st1 := snd (handleTunnelRequestCore s response request st) in
     forall response' request' suffix,
       (RawQuery request' = (ReadPrefix ++ GetUUID t ++ suffix)%string ->
        exists evs,
          since st1 (snd (handleTunnelRequestCore s response' request' st1))
          = EvAcquireReader (GetUUID t) :: evs) /\
       (RawQuery request' = (WritePrefix ++ GetUUID t ++ suffix)%string ->
        EvAcquireWriter (GetUUID t)
        ∈ since st1 (snd (handleTunnelRequestCore s response' request' st1)))).
Proof.
  intros s st0. split.
  { intros response request id. by apply doRead_not_found. }
  intros response request st t Hq He Hlen st1 response' request' suffix.
  assert (tunnels st1 !! GetUUID t = Some t) as Ht.
  { unfold st1, handleTunnelRequestCore. rewrite Hq. simpl.
    unfold s, NewHTTPTunnelServlet; simpl. rewrite He.
    unfold registerTunnel, Put, Log, SetHeader, Write, bind, emit, ret. simpl.
    destruct (Write_result response (nwrites st)); simpl; apply lookup_insert_eq. }
  split; intros Hq'.
  - rewrite (dispatch_read _ _ _ _ _ _ Hq' Hlen).
    destruct (doRead response' request' (GetUUID t) st1) as [o st2] eqn:Hrun.
    by eapply doRead_starts.
  - rewrite (dispatch_write _ _ _ _ _ _ Hq' Hlen), (doWrite_unfold _ _ _ _ _ Ht).
    cbv zeta. destruct (snd (io_Copy (accepts t) request')); simpl; trace_since.
    all: unfold write_prologue; elem_find.
Qed.

Lemma connect_makes_tunnel_reachable_witness :
  let t := sample_tunnel two_batches None None in
  let s := fst (NewHTTPTunnelServlet (fun _ => inl t)) in
  let st0 := snd (NewHTTPTunnelServlet (fun _ => inl t)) in
  let st1 := snd (handleTunnelRequestCore s broken_response (sample_request "connect") st0) in
  let request := sample_request ("read:" ++ sample_uuid ++ ":7") in
  exists evs,
    since st1 (snd (handleTunnelRequestCore s sound_response request st1))
    = EvAcquireReader sample_uuid :: evs.
Proof.
  intros t s st0 st1 request.
  destruct (connect_makes_tunnel_reachable (fun _ => inl t)) as [_ Hreach].
  destruct (Hreach broken_response (sample_request "connect") st0 t
              eq_refl eq_refl eq_refl sound_response request ":7"%string) as [Hread _].
  apply Hread. reflexivity.
Defined.

(** ** How errors reach the client *)

Lemma ServeHTTP_tagged gs hs s w r st g st1 :
  handleTunnelRequestCore s w r st = (Returned (Some (Tagged g)), st1) ->
  ServeHTTP gs hs s w r st = (Returned tt, after (render_events gs hs g) 0 st1).
Proof.
  intros H. unfold ServeHTTP, bind at 1. rewrite H. simpl.
  unfold render_events, sendError, Log, SetHeader, WriteHeader, bind, emit, ret, after.
  destruct g as [[] msg]; simpl; rewrite <- ?app_assoc, Nat.add_0_r; reflexivity.
Qed.

(** X10. When the dispatch core returns a tagged error, [ServeHTTP] returns
    normally after the log lines, the status-code header, the message header
    and the status line, in this order and nothing else.  The message header
    carries the text of the error only for the kind client; for every other
    kind, not-found included, it is the fixed text of an internal error.
    The registry is left alone and nothing is written to the body.  When the
    core returns no error, [ServeHTTP] adds nothing at all. *)
Theorem errors_are_rendered_by_kind gs hs s w r st :
  (forall g st1,
     handleTunnelRequestCore s w r st = (Returned (Some (Tagged g)), st1) ->
     exists st2 logs,
       ServeHTTP gs hs s w r st = (Returned tt, st2) /\
       since st1 st2
       = logs ++
         [EvSetHeader "Guacamole-Status-Code"%string (Sprintf_v (gs (Kind g)));
          EvSetHeader "Guacamole-Error-Message"%string
            (if decide (Kind g = ErrClient) then Msg g
             else "Internal server error."%string);
          EvWriteHeader (hs (Kind g))] /\
       Forall (fun e => is_log e = true) logs /\
       (EvLog WarnLevel ("HTTP tunnel request rejected: " ++ Msg g)%string ∈ logs
        <-> Kind g = ErrClient) /\
       tunnels st2 = tunnels st1 /\ nwrites st2 = nwrites st1) /\
  (forall st1,
     handleTunnelRequestCore s w r st = (Returned None, st1) ->
     ServeHTTP gs hs s w r st = (Returned tt, st1)).
Proof.
  split.
  - intros g st1 H. rewrite (ServeHTTP_tagged _ _ _ _ _ _ _ _ H).
    eexists _, _. split; [reflexivity|]. trace_since. unfold render_events.
    split; [reflexivity|]. split; [|split; [|split]].
    + case_decide; by repeat constructor.
    + case_decide as Hk; split; intros Hin; try done.
      * by left.
      * elem_cases Hin; done.
    + done.
    + simpl. lia.
  - intros st1 H. unfold ServeHTTP, bind. by rewrite H.
Qed.

Lemma errors_are_rendered_by_kind_witness :
  let t := sample_tunnel two_batches None None in
  let st := registered t in
  let s := accepting_servlet t in
  let request := sample_request "close:now" in
  let run := ServeHTTP (fun _ => 768) http_status s sound_response request st in
  fst run = Returned tt /\
  since st (snd run)
  = [EvLog WarnLevel "HTTP tunnel request rejected: Invalid tunnel operation: close:now";
     EvSetHeader "Guacamole-Status-Code" "768";
     EvSetHeader "Guacamole-Error-Message" "Invalid tunnel operation: close:now";
     EvWriteHeader 400]%string.
Proof.
  intros t st s request run.
  destruct (errors_are_rendered_by_kind (fun _ => 768) http_status s sound_response
              request st) as [Herr _].
  destruct (Herr {| Kind := ErrClient;
                    Msg := "Invalid tunnel operation: close:now" |} st)
    as (st2 & logs & Hrun & _); [reflexivity|].
  unfold run. rewrite Hrun. split; [reflexivity|].
  rewrite <- Hrun. vm_compute. reflexivity.
Defined.

(** X11. An identity that is not in the registry is not answered as a
    client error: for a read or a write request that names it, [ServeHTTP]
    logs at error level, sends the status of the kind not-found and, as
    message, the fixed text of an internal error, not the text of the
    not-found error; the empty query, a client error, is logged as a warning
    and answered with its own text. *)
Theorem unknown_identity_is_rendered_as_internal_error gs hs s w r st id suffix :
  String.length id = 36 ->
  tunnels st !! id = None ->
  (RawQuery r = (ReadPrefix ++ id ++ suffix)%string \/
   RawQuery r = (WritePrefix ++ id ++ suffix)%string ->
   ServeHTTP gs hs s w r st
   = (Returned tt,
      after [EvLog ErrorLevel "HTTP tunnel request failed: No such tunnel.";
             EvLog DebugLevel "Internal error in HTTP tunnel.No such tunnel.";
             EvSetHeader "Guacamole-Status-Code" (Sprintf_v (gs ErrResourceNotFound));
             EvSetHeader "Guacamole-Error-Message" "Internal server error.";
             EvWriteHeader (hs ErrResourceNotFound)]%string 0 st)) /\
  (RawQuery r = ""%string ->
   ServeHTTP gs hs s w r st
   = (Returned tt,
      after [EvLog WarnLevel "HTTP tunnel request rejected: No query string provided.";
             EvSetHeader "Guacamole-Status-Code" (Sprintf_v (gs ErrClient));
             EvSetHeader "Guacamole-Error-Message" "No query string provided.";
             EvWriteHeader (hs ErrClient)]%string 0 st)).
Proof.
  intros Hlen Hid. split.
  - intros [Hq|Hq].
    + rewrite (ServeHTTP_tagged gs hs s w r st
                 {| Kind := ErrResourceNotFound; Msg := "No such tunnel." |} st);
        [reflexivity|].
      rewrite (dispatch_read _ _ _ _ _ _ Hq Hlen). by apply doRead_not_found.
    + rewrite (ServeHTTP_tagged gs hs s w r st
                 {| Kind := ErrResourceNotFound; Msg := "No such tunnel." |} st);
        [reflexivity|].
      rewrite (dispatch_write _ _ _ _ _ _ Hq Hlen). by apply doWrite_not_found.
  - intros Hq.
    rewrite (ServeHTTP_tagged gs hs s w r st
               {| Kind := ErrClient; Msg := "No query string provided." |} st);
      [reflexivity|].
    unfold handleTunnelRequestCore. rewrite Hq. reflexivity.
Qed.

Lemma unknown_identity_is_rendered_as_internal_error_witness :
  let request := sample_request ("write:" ++ sample_uuid ++ ":3") in
  since empty_state
    (snd (ServeHTTP (fun _ => 514) http_status refusing_servlet sound_response
            request empty_state))
  = [EvLog ErrorLevel "HTTP tunnel request failed: No such tunnel.";
     EvLog DebugLevel "Internal error in HTTP tunnel.No such tunnel.";
     EvSetHeader "Guacamole-Status-Code" "514";
     EvSetHeader "Guacamole-Error-Message" "Internal server error.";
     EvWriteHeader 404]%string.
Proof.
  intros request.
  destruct (unknown_identity_is_rendered_as_internal_error (fun _ => 514) http_status
              refusing_servlet sound_response request empty_state
              sample_uuid ":3"%string) as [Hunknown _]; [reflexivity|reflexivity|].
  rewrite Hunknown; [reflexivity|]. right. reflexivity.
Defined.

(** ** The write relay and the response *)

(** X12. A write request on a tunnel it finds always comes to an end by a
    return; it sets its three headers, among them a content length of zero,
    and then holds the writer role from the acquisition to its last event,
    the release; it never writes to the body of the response, never flushes
    it and never sets its status; and when the copy succeeds it returns no
    error, with the registry untouched and nothing torn down. *)
Theorem write_relay_frame response request id st t o st' :
  tunnels st !! id = Some t ->
  doWrite response request id st = (o, st') ->
  (exists err, o = Returned err) /\
  (exists mid,
     since st st'
     = [EvSetHeader "Content-Type" "application/octet-stream";
        EvSetHeader "Cache-Control" "no-cache";
        EvSetHeader "Content-Length" "0";
        EvAcquireWriter (GetUUID t)]%string
       ++ mid ++ [EvReleaseWriter (GetUUID t)] /\
     Forall (fun e => is_role e = false) mid) /\
  Forall (fun e => is_output e = false) (since st st') /\
  nwrites st' = nwrites st /\
  (snd (io_Copy (accepts t) request) = None ->
   o = Returned None /\ tunnels st' = tunnels st /\ teardowns (since st st') = []).
Proof.
  intros Ht H. rewrite (doWrite_unfold _ _ _ _ _ Ht) in H. cbv zeta in H.
  destruct (snd (io_Copy (accepts t) request)) as [e|] eqn:He;
    injection H as <- <-; trace_since; unfold write_prologue, teardown_events.
  - split; [by eexists|]. split; [|split; [|split]].
    + exists ([EvCopy (GetUUID t) (fst (io_Copy (accepts t) request))
                 (snd (io_Copy (accepts t) request))]
              ++ teardown_events t
              ++ match Close_result t with
                 | Some _ => [EvLog DebugLevel "Error closing tunnel"%string]
                 | None => []
                 end).
      unfold teardown_events.
      destruct (Close_result t); (split; [reflexivity|by repeat constructor]).
    + destruct (Close_result t); by repeat constructor.
    + simpl. lia.
    + done.
  - split; [by eexists|]. split; [|split; [|split]].
    + exists [EvCopy (GetUUID t) (fst (io_Copy (accepts t) request))
                (snd (io_Copy (accepts t) request))].
      split; [done|]. by repeat constructor.
    + by repeat constructor.
    + simpl. lia.
    + intros _. done.
Qed.

Lemma write_relay_frame_witness :
  let t := sample_tunnel [] None None in
  let st := registered t in
  let run := doWrite broken_response (sample_request "") sample_uuid st in
  fst run = Returned None /\ tunnels (snd run) = tunnels st /\
  nwrites (snd run) = 0 /\
  Forall (fun e => is_output e = false) (since st (snd run)).
Proof.
  intros t st run.
  destruct (write_relay_frame broken_response (sample_request "") sample_uuid st t
              (fst run) (snd run)) as (_ & _ & Hout & Hn & Hok).
  - reflexivity.
  - vm_compute. reflexivity.
  - destruct Hok as (Ho & Hreg & _); [reflexivity|].
    split; [exact Ho|]. split; [exact Hreg|]. split; [exact Hn|exact Hout].
Defined.

(** ** Flushing when the source runs dry *)

Lemma flushed_tail e evs :
  flushed_when_idle (e :: evs) = true -> flushed_when_idle evs = true.
Proof.
  destruct e as [| | | | | | | | | | | |[]| | |]; simpl; try done.
  by destruct evs as [|[] evs].
Qed.

Lemma flushed_app evs1 evs2 :
  flushed_when_idle evs1 = true -> flushed_when_idle evs2 = true ->
  flushed_when_idle (evs1 ++ evs2) = true.
Proof.
  intros H1 H2. induction evs1 as [|e evs1 IH]; [done|].
  pose proof (flushed_tail _ _ H1) as Ht. specialize (IH Ht).
  destruct e as [| | | | | | | | | | | |[]| | |]; simpl; try done.
  by destruct evs1 as [|[] evs1].
Qed.

Lemma flushed_meaning evs :
  flushed_when_idle evs = true ->
  forall pre post, evs = pre ++ EvAvailable false :: post ->
  exists post', post = EvFlush :: post'.
Proof.
  intros H pre. revert evs H. induction pre as [|a pre IH]; intros evs H post ->.
  - simpl in H. destruct post as [|[] post]; try done. by eexists.
  - apply flushed_tail in H. by eapply IH.
Qed.

Lemma flushed_flush response : flushed_when_idle (flush_events response) = true.
Proof. unfold flush_events. by destruct (flusher response). Qed.

Lemma flushed_body_events response cur :
  flusher response = true -> flushed_when_idle (body_events response cur) = true.
Proof.
  intros Hfl. unfold body_events, flush_events. rewrite Hfl.
  by destruct (available cur).
Qed.

Lemma flushed_loop response cur rest evs o :
  flusher response = true ->
  loop_run response cur rest evs o -> flushed_when_idle evs = true.
Proof.
  intros Hfl. induction 1; try done.
  - by apply flushed_body_events.
  - by apply flushed_body_events.
  - apply flushed_app; [by apply flushed_body_events|done].
Qed.

(** X13. With a response writer that can flush, a read flushes the response
    every time the source answers that no further batch is ready: in the
    trace of the read, each such answer of [Available] is followed at once
    by a flush, before the loop asks for queued readers or pulls again. *)
Theorem read_flushes_when_source_is_idle response request id st o st' :
  flusher response = true ->
  doRead response request id st = (o, st') ->
  flushed_when_idle (since st st') = true /\
  forall pre post,
    since st st' = pre ++ EvAvailable false :: post ->
    exists post', post = EvFlush :: post'.
Proof.
  intros Hfl H.
  assert (flushed_when_idle (since st st') = true) as Hok.
  { destruct (tunnels st !! id) as [t|] eqn:Ht.
    2:{ rewrite doRead_not_found in H by done. injection H as <- <-.
        unfold since. by rewrite drop_all. }
    read_cases H Ht.
    all: try pose proof (flushed_loop _ _ _ _ _ Hfl Hrun) as Hl.
    all: unfold read_prologue, teardown_events, read_error_log.
    all: repeat first [ reflexivity | exact Hl | apply flushed_flush
                      | apply flushed_app | progress cbn [flushed_when_idle app] ]. }
  split; [exact Hok|]. by apply flushed_meaning.
Qed.

Lemma read_flushes_when_source_is_idle_witness :
  let t := sample_tunnel two_batches None None in
  let st := registered t in
  let run := doRead sound_response (sample_request "") sample_uuid st in
  EvAvailable false ∈ since st (snd run) /\
  flushed_when_idle (since st (snd run)) = true.
Proof.
  intros t st run. split; [in_list|].
  apply (read_flushes_when_source_is_idle sound_response (sample_request "")
           sample_uuid st (fst run) (snd run)).
  - reflexivity.
  - vm_compute. reflexivity.
Defined.

(** ** The end of a read that yields *)




(** ** A read that succeeds although the source failed *)

Lemma loop_cond_empty response cur rest evs o :
  loop_run response cur rest evs o ->
  forall err, o = Returned (LoopCond err) ->
  forall m g, EvReadSome m (Some g) ∈ EvReadSome (message cur) (failure cur) :: evs ->
  m = [] /\ err = Some g.
Proof.
  induction 1 as [cur rest Hm|cur rest g' Hm Hf|cur rest m' Hm Hf|cur rest Hm Hf Hq
                 |cur Hm Hf Hq|cur next rest evs o Hm Hf Hq Hrun IH];
    intros err Ho m g He; try done.
  - apply list_elem_of_singleton in He. injection He as -> Hg.
    injection Ho as <-. by rewrite Hm.
  - rewrite Hf in He. apply elem_of_cons in He as [?|He]; [done|].
    apply elem_of_app in He as [He|He].
    { apply body_events_elem in He as [?|[?|[?|?]]]; done. }
    by apply (IH err Ho).
Qed.

(** X15. A read can return no error although the source failed.  For a read
    that returns nil: its trace has teardown events exactly when one of its
    fetches failed; such a fetch is not the first one and delivered no
    bytes, and, whatever the kind of its error, the tunnel has been removed
    from the registry and closed before the sentinel was written, and the
    error is not reported to the caller. *)
Theorem read_success_hides_source_failure response request id st o st' :
  doRead response request id st = (o, st') ->
  o = Returned None ->
  (teardowns (since st st') <> []
   <-> exists m g, EvReadSome m (Some g) ∈ since st st') /\
  (forall m g, EvReadSome m (Some g) ∈ since st st' ->
     m = [] /\
     exists t pre post,
       tunnels st !! id = Some t /\ tunnels st' !! GetUUID t = None /\
       since st st' = EvAcquireReader (GetUUID t) :: pre
                      ++ [EvReadSome m (Some g)] ++ teardown_events t
                      ++ [EvWrite sentinel None] ++ post).
Proof.
  intros H Ho.
  destruct (tunnels st !! id) as [t|] eqn:Ht.
  2:{ rewrite doRead_not_found in H by done. by injection H as <- <-. }
  read_cases H Ht; try done.
  all: pose proof (loop_cond_empty _ _ _ _ _ Hrun) as Hempty.
  all: pose proof (loop_fetch_failure _ _ _ _ _ Hrun) as Hlast.
  all: pose proof (loop_cond_origin _ _ _ _ _ Hrun) as Horigin.
  all: rewrite Hf in Hempty, Hlast, Horigin.
  all: count_teardowns Hrun.
  - (* left by the break *)
    split.
    + split; [done|]. intros (m & g & Hin). elem_cases Hin; try done.
      all: by destruct (Hlast m g ltac:(elem_find)) as [_ [?|?]].
    + intros m g Hin. elem_cases Hin; try done.
      all: by destruct (Hlast m g ltac:(elem_find)) as [_ [?|?]].
  - (* left by its condition after a failed fetch *)
    split.
    + split; [intros _|done]. destruct (Horigin _ eq_refl) as [m Hm].
      apply elem_of_cons in Hm as [Hm|Hm]; [done|].
      match type of Hm with
      | EvReadSome _ (Some ?g) ∈ _ => exists m, g
      end.
      unfold read_prologue. elem_find.
    + intros m g Hin.
      assert (EvReadSome m (Some g) ∈ EvReadSome (message p) None :: evs) as Hin'
        by (elem_cases Hin; try done; elem_find).
      destruct (Hempty _ eq_refl _ _ Hin') as [-> Hg]. split; [done|].
      destruct (Hlast _ _ Hin') as [[pre Hpre] _].
      exists t,
        (([EvSetHeader "Content-Type" "application/octet-stream";
           EvSetHeader "Cache-Control" "no-cache"]%string
          ++ flush_events response) ++ pre),
        (flush_events response ++ [EvReleaseReader (GetUUID t)]).
      split; [done|]. split; [apply lookup_delete_eq|].
      rewrite (app_comm_cons evs), Hpre. unfold read_prologue. simpl.
      rewrite <- !app_assoc. reflexivity.
  - (* left by its condition without error *)
    split.
    + split; [done|]. intros (m & g & Hin). elem_cases Hin; try done.
      all: by destruct (Hempty _ eq_refl m g ltac:(elem_find)) as [_ ?].
    + intros m g Hin. elem_cases Hin; try done.
      all: by destruct (Hempty _ eq_refl m g ltac:(elem_find)) as [_ ?].
Qed.

Lemma read_success_hides_source_failure_witness :
  let t := sample_tunnel [batch "3.nop;" false false; source_end ErrServer] None None in
  let st := registered t in
  let run := doRead sound_response (sample_request "") sample_uuid st in
  let failed := EvReadSome [] (Some {| Kind := ErrServer; Msg := "source ended" |}) in
  fst run = Returned None /\
  failed ∈ since st (snd run) /\
  teardowns (since st (snd run)) <> [] /\
  tunnels (snd run) !! sample_uuid = None.
Proof.
  intros t st run failed.
  assert (fst run = Returned None) as Hnil by (vm_compute; reflexivity).
  assert (failed ∈ since st (snd run)) as Hin by in_list.
  destruct (read_success_hides_source_failure sound_response (sample_request "")
              sample_uuid st (fst run) (snd run)) as [Hiff Hfetch].
  - vm_compute. reflexivity.
  - exact Hnil.
  - split; [exact Hnil|]. split; [exact Hin|]. split.
    + apply Hiff. by eexists _, _.
    + destruct (Hfetch _ _ Hin) as (_ & t' & pre & post & Ht' & Hgone & _).
      assert (t' = t) as -> by (vm_compute in Ht'; by injection Ht' as <-).
      exact Hgone.
Defined.
